(** * The post repository of the blog: [lib/posts.js]

    A shallow embedding of the three query operations of [lib/posts.js]
    ([getSortedPostsData], [getAllPostIds], [getPostData]) together with
    the parts of the JavaScript runtime they call: string replacement
    with the pattern [/\.md$/], [path.join], the synchronous [fs] reads,
    object spread and [Array.prototype.sort]. The home page of
    [pages/index.js], which calls [getSortedPostsData], is embedded as
    far as it computes: [getStaticProps] and the items of the list that
    [Home] renders.

    The two npm dependencies, gray-matter and remark (with remark-html),
    are not part of the repository; they are the fields of the class
    [Deps], and every general statement holds for all their instances.
    Where a sequence of calls is at stake, the cache that gray-matter
    keeps between calls is threaded through the queries. *)

From Stdlib Require Import String Ascii List ZArith Lia Sorted Permutation.
From stdpp Require Import base option list gmap strings.

Set Warnings "-register-all".

Open Scope string_scope.

(** ** Errors and the error monad

    A thrown exception (or, for the [async] function, a rejected
    promise) is the [Err] branch. *)

Inductive error : Type :=
| ENOENT                    (* no such file or directory *)
| ENOTDIR                   (* a path component is not a directory *)
| EISDIR                    (* read of a directory *)
| ERR_INVALID_ARG_VALUE     (* path with a null byte *)
| YAMLException.            (* front matter that does not parse *)

Inductive result (A : Type) : Type :=
| Ok (a : A)
| Err (e : error).

Arguments Ok {A} a.
Arguments Err {A} e.

Definition bind {A B : Type} (r : result A) (k : A -> result B) : result B :=
  match r with
  | Ok a => k a
  | Err e => Err e
  end.

Notation "'let*' x ':=' r 'in' k" := (bind r (fun x => k))
  (at level 10, x name, r at level 100, k at level 200).

(** [Array.prototype.map] with a callback that may throw: the first
    exception aborts the whole call. *)
Fixpoint map_throwing {A B : Type} (f : A -> result B) (l : list A)
  : result (list B) :=
  match l with
  | [] => Ok []
  | x :: l' =>
      let* y := f x in
      let* ys := map_throwing f l' in
      Ok (y :: ys)
  end.

(** ** JavaScript values and operators *)

Module JS.

(** The values the records hold: strings, which are the scalars of the
    metadata, and plain objects as finite maps from property names to
    values. A string is a sequence of code units, one per character. *)
Inductive jsval : Type :=
| JStr (s : string)
| JObj (m : gmap string jsval).

(** A plain object. An absent property reads as [undefined], which is
    [None] of the lookup. *)
Abbreviation object := (gmap string jsval).

(** [{ ...base, ...extra }]: the properties written later win. *)
Definition spread (base extra : object) : object := extra ∪ base.

(** ToPrimitive with hint number, on the way to a comparison: a string
    is itself, a plain object is rendered by [Object.prototype.toString]. *)
Definition to_primitive (v : jsval) : string :=
  match v with
  | JStr s => s
  | JObj _ => "[object Object]"
  end.

(** [x < y]. Two strings compare unit by unit; as soon as one side is
    [undefined] the comparison is made on numbers, with NaN, and is
    false. *)
Definition js_lt (x y : option jsval) : bool :=
  match x, y with
  | Some a, Some b => String.ltb (to_primitive a) (to_primitive b)
  | _, _ => false
  end.

(** [s.replace(/\.md$/, "")]: the pattern is tried at every position
    from the left; it matches where the rest of the input is exactly
    [.md], and the match is replaced by the empty string. *)
Fixpoint replace_md_suffix (s : string) : string :=
  if String.eqb s ".md" then ""
  else match s with
       | EmptyString => EmptyString
       | String c s' => String c (replace_md_suffix s')
       end.

(** [s.split(sep)] for a separator of one character. *)
Fixpoint split_char (sep : ascii) (s : string) : list string :=
  match s with
  | EmptyString => [EmptyString]
  | String c s' =>
      if Ascii.eqb c sep then EmptyString :: split_char sep s'
      else match split_char sep s' with
           | seg :: segs => String c seg :: segs
           | [] => [String c EmptyString]
           end
  end.

(** [Array.prototype.sort(comparefn)]. The algorithm belongs to the
    engine; it is taken to be the straight insertion sort: each element
    is moved left from the right end of the sorted prefix, past every
    [tmp] with [comparefn(tmp, element) > 0]. [insert_leftwards] works
    on the prefix in reverse, so that its head is the element on the
    right end. Engines differ on where records land that the comparison
    function cannot tell apart (equal dates) or cannot compare (no
    date); the statements on the order below concern records that all
    carry a date, and assert nothing on equal dates. *)
Fixpoint insert_leftwards {A : Type} (comparefn : A -> A -> Z)
  (element : A) (rev_prefix : list A) : list A :=
  match rev_prefix with
  | [] => [element]
  | tmp :: rest =>
      if (0 <? comparefn tmp element)%Z
      then tmp :: insert_leftwards comparefn element rest
      else element :: rev_prefix
  end.

Definition array_sort {A : Type} (comparefn : A -> A -> Z) (l : list A)
  : list A :=
  rev (fold_left (fun rev_prefix element =>
                    insert_leftwards comparefn element rev_prefix) l []).

(** What the sort leaves between two neighbours, read on the reversed
    prefix, where the later element comes first. *)
Definition sort_respects {A : Type} (comparefn : A -> A -> Z)
  (later earlier : A) : Prop :=
  (comparefn earlier later <= 0)%Z.

End JS.

Import JS.

(** ** Paths: [path.join] *)

Module Path.

(** An absolute, normalized path is the list of its components from the
    root. *)
Abbreviation path := (list string).

Definition slash : ascii := "/"%char.

(** The components of a relative path, before normalization. *)
Definition split_slash (s : string) : list string := split_char slash s.

(** One step of the normalization of [path.join]: an empty component
    and [.] are dropped, [..] removes the component before it (and
    stays at the root), any other component is appended. *)
Definition push_component (p : path) (seg : string) : path :=
  if String.eqb seg "" then p
  else if String.eqb seg "." then p
  else if String.eqb seg ".." then removelast p
  else p ++ [seg].

(** [path.join(base, rel)] for an absolute normalized [base]. *)
Definition join (base : path) (rel : string) : path :=
  fold_left push_component (split_slash rel) base.

End Path.

(** ** The file system: [fs.readdirSync], [fs.readFileSync] *)

Module Fs.

Import Path.

(** A file holds its text (decoded as utf8); a directory lists its
    entries in the order [readdir] reports them. *)
Inductive node : Type :=
| File (contents : string)
| Dir (entries : list (string * node)).

Fixpoint lookup_entry (name : string) (entries : list (string * node))
  : option node :=
  match entries with
  | [] => None
  | (n, c) :: rest =>
      if String.eqb n name then Some c else lookup_entry name rest
  end.

(** Path resolution from the root node. *)
Fixpoint resolve (n : node) (p : path) : result node :=
  match p with
  | [] => Ok n
  | seg :: p' =>
      match n with
      | File _ => Err ENOTDIR
      | Dir entries =>
          match lookup_entry seg entries with
          | Some c => resolve c p'
          | None => Err ENOENT
          end
      end
  end.

Fixpoint has_char (x : ascii) (s : string) : bool :=
  match s with
  | EmptyString => false
  | String c s' => Ascii.eqb c x || has_char x s'
  end.

Definition has_null_byte (s : string) : bool := has_char Ascii.zero s.

(** Node refuses a path with a null byte before it asks the system. *)
Definition check_path (p : path) : result unit :=
  if existsb has_null_byte p then Err ERR_INVALID_ARG_VALUE else Ok tt.

Definition readdirSync (root : node) (p : path) : result (list string) :=
  let* _ := check_path p in
  let* n := resolve root p in
  match n with
  | Dir entries => Ok (map fst entries)
  | File _ => Err ENOTDIR
  end.

Definition readFileSync (root : node) (p : path) : result string :=
  let* _ := check_path p in
  let* n := resolve root p in
  match n with
  | File contents => Ok contents
  | Dir _ => Err EISDIR
  end.

(** What a file system guarantees of a name in a directory: it is not
    empty, not [.] or [..], and holds no slash and no null byte. *)
Definition valid_name (name : string) : bool :=
  negb (String.eqb name "") && negb (String.eqb name ".")
  && negb (String.eqb name "..")
  && negb (has_char slash name) && negb (has_null_byte name).

End Fs.

Import Path Fs.

(** ** The module [lib/posts.js] *)

(** What [matter(fileContents)] returns: the parsed front matter and the
    text after it. *)
Record matterResult : Type := MatterResult {
  data : object;
  content : string
}.

(** The two dependencies of the module.
    - [matter] is gray-matter; it throws on front matter it cannot parse.
    - [remark_html] is [remark().use(html).process(_)] followed by
      [toString()].
    Within one call of a query both behave as functions of their
    input. [matter] is what gray-matter answers on an input; the cache
    that gray-matter keeps from one call to the next is written out
    below, in [matter_call], where a sequence of calls is at stake. *)
Class Deps : Type := {
  matter : string -> result matterResult;
  remark_html : string -> string
}.

(** The state a query reads: the working directory the process had
    when the module was loaded, and the file tree. *)
Record world : Type := World {
  cwd : path;
  root : node
}.

Section Posts.

Context `{Deps}.

(** [const postsDirectory = path.join(process.cwd(), "posts")] *)
Definition postsDirectory (w : world) : path := Path.join (cwd w) "posts".

(** The comparison function handed to [sort]. *)
Definition by_date (a b : object) : Z :=
  if js_lt (a !! "date") (b !! "date") then 1%Z else (-1)%Z.

(** The callback of [fileNames.map] in [getSortedPostsData]. *)
Definition post_summary (w : world) (fileName : string) : result object :=
  let id := replace_md_suffix fileName in
  let fullPath := Path.join (postsDirectory w) fileName in
  let* fileContents := readFileSync (root w) fullPath in
  let* matterResult := matter fileContents in
  Ok (spread {[ "id" := JStr id ]} (data matterResult)).

Definition getSortedPostsData (w : world) : result (list object) :=
  let* fileNames := readdirSync (root w) (postsDirectory w) in
  let* allPostsData := map_throwing (post_summary w) fileNames in
  Ok (array_sort by_date allPostsData).

(** The callback of [fileNames.map] in [getAllPostIds]. *)
Definition static_path (fileName : string) : object :=
  {[ "params" := JObj {[ "id" := JStr (replace_md_suffix fileName) ]} ]}.

Definition getAllPostIds (w : world) : result (list object) :=
  let* fileNames := readdirSync (root w) (postsDirectory w) in
  Ok (map static_path fileNames).

(** [getPostData] is [async]: [Ok] is the value the promise resolves
    to, [Err] the reason it is rejected with. *)
Definition getPostData (w : world) (id : string) : result object :=
  let fullPath := Path.join (postsDirectory w) (id +:+ ".md") in
  let* fileContents := readFileSync (root w) fullPath in
  let* matterResult := matter fileContents in
  let contentHtml := remark_html (content matterResult) in
  Ok (spread (<[ "contentHtml" := JStr contentHtml ]> {[ "id" := JStr id ]})
             (data matterResult)).

End Posts.

(** ** Vocabulary of the statements *)

(** The posts directory exists and lists [entries]. *)
Definition posts_directory_is (w : world) (entries : list (string * node))
  : Prop :=
  check_path (postsDirectory w) = Ok tt
  /\ resolve (root w) (postsDirectory w) = Ok (Dir entries).

(** No name occurs twice. *)
Fixpoint distinct (names : list string) : bool :=
  match names with
  | [] => true
  | n :: rest => negb (existsb (String.eqb n) rest) && distinct rest
  end.

(** The entries of a directory as a file system has them. *)
Definition well_formed_entries (entries : list (string * node)) : bool :=
  forallb valid_name (map fst entries) && distinct (map fst entries).

Definition is_file (entry : string * node) : bool :=
  match entry.2 with
  | File _ => true
  | Dir _ => false
  end.

(** The test of [/\.md$/]. *)
Fixpoint ends_with_md (s : string) : bool :=
  String.eqb s ".md"
  || match s with
     | EmptyString => false
     | String _ s' => ends_with_md s'
     end.

(** [o.params.id], when it is a string. *)
Definition params_id (o : object) : option string :=
  match o !! "params" with
  | Some (JObj p) =>
      match p !! "id" with
      | Some (JStr id) => Some id
      | _ => None
      end
  | _ => None
  end.

(** The value [o.date] is compared by. *)
Definition date_of (o : object) : option string :=
  to_primitive <$> o !! "date".

(** [hay.includes(needle)] *)
Definition contains (needle hay : string) : bool :=
  match String.index 0 needle hay with
  | Some _ => true
  | None => false
  end.

(** The markdown body of the round-trip example: a heading, an empty
    line, a sentence with an emphasis. *)
Definition sample_markdown : string :=
  "# Title" +:+ String "010" (String "010" "Some *text*.").

(** The HTML of the sample: the heading and the paragraph, each with a
    line break after it. *)
Definition sample_rendering : string :=
  "<h1>Title</h1>"
  +:+ String "010" ("<p>Some <em>text</em>.</p>" +:+ String "010" "").

(** Each record is dated no earlier than its right neighbour. *)
Definition adjacent_dates_descend (l : list object) : Prop :=
  forall i a b da db,
    l !! i = Some a -> l !! S i = Some b ->
    date_of a = Some da -> date_of b = Some db ->
    String.leb db da = true.

(** Each record is dated no earlier than any record after it. *)
Definition dates_descend (l : list object) : Prop :=
  forall i j a b da db,
    i < j -> l !! i = Some a -> l !! j = Some b ->
    date_of a = Some da -> date_of b = Some db ->
    String.leb db da = true.

Definition all_dated (l : list object) : Prop :=
  Forall (fun r => is_Some (date_of r)) l.

(** ** The statements of the specification that the code does not meet

    Each is written out as the specification words it, to be refuted on
    a sample tree. *)

Section Statements.

Context `{Deps}.

(** Every listed identifier can be fetched, and comes back as the [id]
    of the post. *)
Definition listed_posts_resolve (w : world) : Prop :=
  forall l o id,
    getAllPostIds w = Ok l -> In o l -> params_id o = Some id ->
    exists r, getPostData w id = Ok r /\ r !! "id" = Some (JStr id).

(** The result is in non-increasing order of the dates: of two records
    that carry a date, the earlier in the list is dated no earlier. *)
Definition listing_descends (w : world) : Prop :=
  forall l, getSortedPostsData w = Ok l -> dates_descend l.

(** The route parameter as the specification draws it. *)
Definition route_parameter (id : string) : object := {[ "id" := JStr id ]}.

(** The listing is exactly the set of the route parameters of [ids]. *)
Definition lists_route_parameters (w : world) (ids : list string) : Prop :=
  exists l,
    getAllPostIds w = Ok l
    /\ forall o, In o l <-> exists id, In id ids /\ o = route_parameter id.

(** The identifier of [name.ext] is [name]. *)
Definition strips_extension (fileName : string) : Prop :=
  forall name ext,
    fileName = name +:+ "." +:+ ext -> has_char "."%char ext = false ->
    replace_md_suffix fileName = name.

(** An identifier without a file of its name in the posts directory is
    answered with the not-found error. *)
Definition missing_post_not_found (w : world) : Prop :=
  forall entries id,
    posts_directory_is w entries ->
    lookup_entry (id +:+ ".md") entries = None ->
    getPostData w id = Err ENOENT.

(** No summary has a [contentHtml]; every fetched post has one. *)
Definition body_only_when_fetched (w : world) : Prop :=
  (forall l r, getSortedPostsData w = Ok l -> In r l ->
               r !! "contentHtml" = None)
  /\ (forall id r, getPostData w id = Ok r -> is_Some (r !! "contentHtml")).

(** A post with the sample body is fetched with the heading and the
    emphasis in its [contentHtml]. *)
Definition renders_sample (w : world) (id : string) : Prop :=
  forall contents mr,
    readFileSync (root w) (Path.join (postsDirectory w) (id +:+ ".md"))
    = Ok contents ->
    matter contents = Ok mr -> content mr = sample_markdown ->
    exists r html,
      getPostData w id = Ok r /\ r !! "contentHtml" = Some (JStr html)
      /\ contains "<h1>Title</h1>" html = true
      /\ contains "<em>text</em>" html = true.

End Statements.

(** ** The home page: [pages/index.js] *)

Section HomePage.

Context `{Deps}.

(** The props of the page: [{ allPostsData }]. *)
Record HomeProps : Type := {
  allPostsData : list object
}.

(** What [getStaticProps] resolves to: [{ props: { allPostsData } }]. *)
Record StaticProps : Type := {
  props : HomeProps
}.

(** [getStaticProps] is [async]; it calls [getSortedPostsData] and
    catches nothing. *)
Definition getStaticProps (w : world) : result StaticProps :=
  let* allPostsData := getSortedPostsData w in
  Ok {| props := {| allPostsData := allPostsData |} |}.

(** A value inside a template literal, after ToString. *)
Definition to_string (v : option jsval) : string :=
  match v with
  | None => "undefined"
  | Some (JStr s) => s
  | Some (JObj _) => "[object Object]"
  end.

(** What [Home] computes for one post of the list: the [key] of the
    [<li>], the [href] and [as] of its [<Link>], the text of the
    anchor and the [dateString] handed to [<Date>]. *)
Record listItem : Type := {
  key : option jsval;
  href : string;
  as_path : string;
  anchor_text : option jsval;
  dateString : option jsval
}.

(** The callback of [allPostsData.map] in [Home], on the destructured
    [{ id, date, title }]. *)
Definition post_item (post : object) : listItem :=
  let id := post !! "id" in
  let date := post !! "date" in
  let title := post !! "title" in
  {| key := id;
     href := "/posts/[id]";
     as_path := "/posts/" +:+ to_string id;
     anchor_text := title;
     dateString := date |}.

(** The children of the [<ul>] that [Home] renders; the markup around
    the list is constant. *)
Definition Home_list (p : HomeProps) : list listItem :=
  map post_item (allPostsData p).

End HomePage.

(** ** More vocabulary *)

(** A component of a normalized path: not empty, not [.] or [..], and
    without a slash. *)
Definition normal_component (seg : string) : bool :=
  negb (String.eqb seg "") && negb (String.eqb seg ".")
  && negb (String.eqb seg "..") && negb (has_char slash seg).

(** [x] is dated, [y] is dated, and [x] is dated no later than [y]. *)
Definition dated_no_later (x y : object) : Prop :=
  match date_of x, date_of y with
  | Some dx, Some dy => String.leb dx dy = true
  | _, _ => False
  end.

(** The summary [getSortedPostsData] builds for one directory entry. *)
Definition summary_of_entry `{Deps} (entry : string * node) (r : object)
  : Prop :=
  exists contents mr,
    entry.2 = File contents
    /\ matter contents = Ok mr
    /\ r = spread {[ "id" := JStr (replace_md_suffix entry.1) ]} (data mr).

(** The entry [fileName] of the posts directory reads and parses. *)
Definition entry_succeeds `{Deps} (w : world) (fileName : string) : Prop :=
  exists contents mr,
    readFileSync (root w) (Path.join (postsDirectory w) fileName)
    = Ok contents
    /\ matter contents = Ok mr.

(** The entry [fileName] cannot be read, or read but not parsed, and
    the exception is [e]. *)
Definition entry_fails `{Deps} (w : world) (fileName : string) (e : error)
  : Prop :=
  readFileSync (root w) (Path.join (postsDirectory w) fileName) = Err e
  \/ exists contents,
       readFileSync (root w) (Path.join (postsDirectory w) fileName)
       = Ok contents
       /\ matter contents = Err e.

(** No listed file that reads and parses declares an [id] key. *)
Definition no_declared_id `{Deps} (w : world) : Prop :=
  forall fileNames f contents mr,
    readdirSync (root w) (postsDirectory w) = Ok fileNames ->
    In f fileNames ->
    readFileSync (root w) (Path.join (postsDirectory w) f) = Ok contents ->
    matter contents = Ok mr ->
    data mr !! "id" = None.

(** What [getPostData] builds from a parsed file. *)
Definition post_record `{Deps} (id : string) (mr : matterResult) : object :=
  spread (<[ "contentHtml" := JStr (remark_html (content mr)) ]>
            {[ "id" := JStr id ]})
         (data mr).

(** The summary [getSortedPostsData] builds for the listed file
    [fileName]. *)
Definition summary_of_file `{Deps} (w : world) (fileName : string)
  (r : object) : Prop :=
  exists contents mr,
    readFileSync (root w) (Path.join (postsDirectory w) fileName)
    = Ok contents
    /\ matter contents = Ok mr
    /\ r = spread {[ "id" := JStr (replace_md_suffix fileName) ]} (data mr).

(** The list item [Home] renders for the listed file [fileName]. *)
Definition item_of_file `{Deps} (w : world) (fileName : string)
  (item : listItem) : Prop :=
  exists contents mr,
    readFileSync (root w) (Path.join (postsDirectory w) fileName)
    = Ok contents
    /\ matter contents = Ok mr
    /\ item = post_item (spread {[ "id" := JStr (replace_md_suffix fileName) ]}
                                (data mr))
    /\ anchor_text item = data mr !! "title"
    /\ dateString item = data mr !! "date".

(** ** A sequence of calls: the cache of gray-matter

    gray-matter keeps, from one call of [matter] to the next, a cache
    keyed by the input. An input already in the cache is answered from
    it, without parsing. An input it has not seen is entered in the
    cache before it is parsed, as a file without data whose content is
    the whole input; parsing then fills the entry in, and when parsing
    throws the entry stays as it was entered. The empty input is
    answered at once and never cached. *)

Abbreviation matter_cache := (gmap string matterResult).

Section CachedCalls.

Context `{Deps}.

(** One call of [matter(input)], with gray-matter's cache before and
    after. The field [matter] of [Deps] is the parse of an input that is
    not in the cache. *)
Definition matter_call (cache : matter_cache) (input : string)
  : result matterResult * matter_cache :=
  if String.eqb input "" then (Ok (MatterResult ∅ ""), cache)
  else match cache !! input with
       | Some file => (Ok file, cache)
       | None =>
           match matter input with
           | Ok file => (Ok file, <[ input := file ]> cache)
           | Err e => (Err e, <[ input := MatterResult ∅ input ]> cache)
           end
       end.

(** What [matter] answers within a call that starts with [cache]. *)
Definition matter_seen (cache : matter_cache) (input : string)
  : result matterResult :=
  (matter_call cache input).1.

(** The dependencies as one call sees them. *)
Definition deps_seen (cache : matter_cache) : Deps :=
  {| matter := matter_seen cache; remark_html := remark_html |}.

(** The callback of [fileNames.map] in [getSortedPostsData]. *)
Definition post_summary_call (w : world) (cache : matter_cache)
  (fileName : string) : result object * matter_cache :=
  let id := replace_md_suffix fileName in
  let fullPath := Path.join (postsDirectory w) fileName in
  match readFileSync (root w) fullPath with
  | Err e => (Err e, cache)
  | Ok fileContents =>
      let '(parsed, cache') := matter_call cache fileContents in
      (let* matterResult := parsed in
       Ok (spread {[ "id" := JStr id ]} (data matterResult)),
       cache')
  end.

(** [Array.prototype.map] with a callback that may throw and that
    passes the cache on. *)
Fixpoint map_calls {A B : Type}
  (f : matter_cache -> A -> result B * matter_cache)
  (cache : matter_cache) (l : list A) : result (list B) * matter_cache :=
  match l with
  | [] => (Ok [], cache)
  | x :: l' =>
      match f cache x with
      | (Err e, cache1) => (Err e, cache1)
      | (Ok y, cache1) =>
          let '(rest, cache2) := map_calls f cache1 l' in
          (let* ys := rest in Ok (y :: ys), cache2)
      end
  end.

Definition getSortedPostsData_call (w : world) (cache : matter_cache)
  : result (list object) * matter_cache :=
  match readdirSync (root w) (postsDirectory w) with
  | Err e => (Err e, cache)
  | Ok fileNames =>
      let '(mapped, cache') :=
        map_calls (post_summary_call w) cache fileNames in
      (let* allPostsData := mapped in Ok (array_sort by_date allPostsData),
       cache')
  end.

(** [getAllPostIds] does not call [matter]. *)
Definition getAllPostIds_call (w : world) (cache : matter_cache)
  : result (list object) * matter_cache :=
  (getAllPostIds w, cache).

Definition getPostData_call (w : world) (cache : matter_cache) (id : string)
  : result object * matter_cache :=
  let fullPath := Path.join (postsDirectory w) (id +:+ ".md") in
  match readFileSync (root w) fullPath with
  | Err e => (Err e, cache)
  | Ok fileContents =>
      let '(parsed, cache') := matter_call cache fileContents in
      (let* matterResult := parsed in
       let contentHtml := remark_html (content matterResult) in
       Ok (spread (<[ "contentHtml" := JStr contentHtml ]>
                     {[ "id" := JStr id ]})
                  (data matterResult)),
       cache')
  end.

(** Two calls of [getPostData] in a row, over unchanged files, give
    equal results. *)
Definition repeated_fetch_agrees (w : world) (id : string) : Prop :=
  forall cache,
    (getPostData_call w (getPostData_call w cache id).2 id).1
    = (getPostData_call w cache id).1.

End CachedCalls.

(** ** The markdown conversion on plain documents *)

Definition is_letter (c : ascii) : bool :=
  let n := nat_of_ascii c in
  (Nat.leb 65 n && Nat.leb n 90) || (Nat.leb 97 n && Nat.leb n 122).

Definition is_word_char (c : ascii) : bool :=
  let n := nat_of_ascii c in
  is_letter c || (Nat.leb 48 n && Nat.leb n 57).

Definition is_stop (c : ascii) : bool :=
  Ascii.eqb c "."%char || Ascii.eqb c ","%char.

(** Where the scan of a line of text stands. *)
Inductive inline_state : Type :=
| AtStart        (* nothing read yet *)
| AfterWord      (* after a letter or digit *)
| AfterSpace     (* after one space *)
| AfterStop      (* after a full stop or comma *)
| EmphasisOpen   (* after the star that opens an emphasis *)
| InEmphasis     (* inside an emphasis, after a letter or digit *)
| AfterEmphasis. (* after the star that closes an emphasis *)

(** The HTML of a line of text made of words, single spaces, full stops
    and commas followed by a space or the end, and words between two
    stars, the first star at the start or after a space, the second
    followed by a space, a stop or the end. [None] for any other text. *)
Fixpoint inline_fragment (st : inline_state) (s : string) : option string :=
  match s with
  | EmptyString =>
      match st with
      | AfterWord | AfterStop | AfterEmphasis => Some EmptyString
      | _ => None
      end
  | String c s' =>
      if is_word_char c then
        match st with
        | AtStart | AfterWord | AfterSpace =>
            String c <$> inline_fragment AfterWord s'
        | EmphasisOpen | InEmphasis =>
            String c <$> inline_fragment InEmphasis s'
        | AfterStop | AfterEmphasis => None
        end
      else if Ascii.eqb c " "%char then
        match st with
        | AfterWord | AfterStop | AfterEmphasis =>
            String c <$> inline_fragment AfterSpace s'
        | _ => None
        end
      else if is_stop c then
        match st with
        | AfterWord | AfterEmphasis =>
            String c <$> inline_fragment AfterStop s'
        | _ => None
        end
      else if Ascii.eqb c "*"%char then
        match st with
        | AtStart | AfterSpace =>
            String.append "<em>" <$> inline_fragment EmphasisOpen s'
        | InEmphasis =>
            String.append "</em>" <$> inline_fragment AfterEmphasis s'
        | _ => None
        end
      else None
  end.

(** The text of a paragraph or of a heading starts with a letter. *)
Definition text_fragment (s : string) : option string :=
  match s with
  | String c _ => if is_letter c then inline_fragment AtStart s else None
  | EmptyString => None
  end.

(** A line that opens with one to six number signs and a space is a
    heading; [level] counts the number signs read so far. *)
Fixpoint heading_fragment (level : nat) (s : string) : option string :=
  match s with
  | String c s' =>
      if Ascii.eqb c "#"%char then
        if Nat.ltb level 6 then heading_fragment (S level) s' else None
      else if Ascii.eqb c " "%char then
        match level with
        | 0 => None
        | _ =>
            let tag := String "h" (String (ascii_of_nat (48 + level)) "") in
            (fun h => "<" +:+ tag +:+ ">" +:+ h +:+ "</" +:+ tag +:+ ">")
              <$> text_fragment s'
        end
      else None
  | EmptyString => None
  end.

(** One block on one line: a heading, or a paragraph. *)
Definition block_fragment (line : string) : option string :=
  match line with
  | String c _ =>
      if Ascii.eqb c "#"%char then heading_fragment 0 line
      else (fun h => "<p>" +:+ h +:+ "</p>") <$> text_fragment line
  | EmptyString => None
  end.

(** The blocks of a document in which every block is one line and
    blocks are set apart by empty lines; [after_block] tells that the
    line before was a block. *)
Fixpoint blocks_fragment (after_block : bool) (lines : list string)
  : option (list string) :=
  match lines with
  | [] => Some []
  | line :: rest =>
      if String.eqb line "" then blocks_fragment false rest
      else if after_block then None
      else
        b ← block_fragment line;
        bs ← blocks_fragment true rest;
        Some (b :: bs)
  end.

(** Modelled from the spec: remark and remark-html are dependencies and
    not under src/; the spec asks of the conversion pass that it is
    CommonMark-compatible. This is the CommonMark rendering of the
    documents made of one-line headings and paragraphs of plain text
    with emphasis, each block followed by a line break; it is [None] on
    every other document, of which it says nothing. *)
Definition commonmark_fragment (body : string) : option string :=
  match blocks_fragment false (split_char "010"%char body) with
  | Some (b :: bs) =>
      Some (String.concat "" (map (fun h => h +:+ String "010" "") (b :: bs)))
  | _ => None
  end.

(** The converter renders the documents of the fragment as CommonMark
    does. *)
Definition commonmark_compatible `{Deps} : Prop :=
  forall body html, commonmark_fragment body = Some html ->
                    remark_html body = html.

(** ** A reference instance of the dependencies, and sample trees

    The closed examples below are evaluated with this instance. *)

Module Fixture.

Definition newline : ascii := "010"%char.
Definition dquote : ascii := "034"%char.

Definition unlines (ls : list string) : string :=
  String.concat (String newline "") ls.

Definition quoted (s : string) : string :=
  String dquote s +:+ String dquote "".

(** A scalar between double quotes is the text between them; any other
    scalar is taken as it stands. *)
Definition scalar (s : string) : string :=
  match s with
  | String c s' =>
      match rev (list_ascii_of_string s') with
      | c' :: inner =>
          if Ascii.eqb c dquote && Ascii.eqb c' dquote
          then string_of_list_ascii (rev inner) else s
      | [] => s
      end
  | EmptyString => s
  end.

(** One line of the metadata block: [key: value]. *)
Definition parse_pair (line : string) : result (string * jsval) :=
  match String.index 0 ": " line with
  | Some i =>
      Ok (String.substring 0 i line,
          JStr (scalar (String.substring (i + 2)
                          (String.length line - (i + 2)) line)))
  | None => Err YAMLException
  end.

Fixpoint parse_block (lines : list string) (acc : object) : result object :=
  match lines with
  | [] => Ok acc
  | line :: rest =>
      if String.eqb line "" then parse_block rest acc
      else
        let* kv := parse_pair line in
        match acc !! kv.1 with
        | Some _ => Err YAMLException
        | None => parse_block rest (<[ kv.1 := kv.2 ]> acc)
        end
  end.

(** The lines up to the closing delimiter, and the lines after it. *)
Fixpoint until_delimiter (lines : list string) : list string * list string :=
  match lines with
  | [] => ([], [])
  | line :: rest =>
      if String.eqb line "---" then ([], rest)
      else let '(block, body) := until_delimiter rest in (line :: block, body)
  end.

(** Modelled from the spec: gray-matter is a dependency and not under
    src/. The file format is the one of the spec's section 6: a metadata
    block at the top of the file, [key: value] pairs one per line,
    closed by a delimiter line, followed by the markdown body. A file
    that does not open with the delimiter line has no metadata and is
    all body. *)
Definition front_matter (fileContents : string) : result matterResult :=
  match split_char newline fileContents with
  | first :: rest =>
      if String.eqb first "---" then
        let '(block, body) := until_delimiter rest in
        let* d := parse_block block ∅ in
        Ok (MatterResult d (unlines body))
      else Ok (MatterResult ∅ fileContents)
  | [] => Ok (MatterResult ∅ fileContents)
  end.

(** A stand-in for remark with remark-html in the closed examples: the
    conversion of [commonmark_fragment] where that is defined; any
    other document is returned as it stands, and nothing is proved
    from that. *)
Definition markdown_to_html (body : string) : string :=
  match commonmark_fragment body with
  | Some html => html
  | None => body
  end.

#[export] Instance deps : Deps :=
  {| matter := front_matter; remark_html := markdown_to_html |}.

(** A post file with the two metadata fields of the tutorial. *)
Definition post_file (title date : string) (body : list string) : node :=
  File (unlines (["---";
                  "title: " +:+ quoted title;
                  "date: " +:+ quoted date;
                  "---"] ++ body)).

(** A post file with one more metadata line. *)
Definition post_file_with (extra title date : string) (body : list string)
  : node :=
  File (unlines (["---";
                  "title: " +:+ quoted title;
                  "date: " +:+ quoted date;
                  extra;
                  "---"] ++ body)).

Definition sample_body : list string := ["# Title"; ""; "Some *text*."].

(** A process started in [/app], of which [tree] is the content. *)
Definition app (tree : list (string * node)) : world :=
  World ["app"] (Dir [("app", Dir tree)]).

(** The scenario of the spec's section 8. *)
Definition blog_posts : list (string * node) :=
  [("pre-rendering.md", post_file "SSG vs SSR" "2020-01-01" sample_body);
   ("ssg-ssr.md", post_file "Pre-rendering" "2020-01-02" sample_body)].

Definition blog : world := app [("posts", Dir blog_posts)].

Definition blog_summaries : list object :=
  [ {[ "id" := JStr "ssg-ssr"; "title" := JStr "Pre-rendering";
       "date" := JStr "2020-01-02" ]};
    {[ "id" := JStr "pre-rendering"; "title" := JStr "SSG vs SSR";
       "date" := JStr "2020-01-01" ]} ].

Definition sample_html : string :=
  "<h1>Title</h1>" +:+ String newline ("<p>Some <em>text</em>.</p>"
                                       +:+ String newline "").

(** A posts directory that also holds a text file. *)
Definition blog_with_notes : world :=
  app [("posts",
        Dir [("ssg-ssr.md", post_file "Pre-rendering" "2020-01-02" sample_body);
             ("notes.txt", File "to do")])].

(** A markdown file next to the posts directory, not inside it. *)
Definition blog_with_readme : world :=
  app [("posts",
        Dir [("ssg-ssr.md", post_file "Pre-rendering" "2020-01-02" sample_body)]);
       ("README.md", File "# Read me")].

(** A post whose metadata declares [id] and [contentHtml] itself. *)
Definition blog_with_overrides : world :=
  app [("posts",
        Dir [("ssg-ssr.md",
              post_file_with "id: custom" "Pre-rendering" "2020-01-02"
                sample_body);
             ("pre-rendering.md",
              post_file_with "contentHtml: plain" "SSG vs SSR" "2020-01-01"
                sample_body)])].

Definition overrides_summaries : list object :=
  [ {[ "id" := JStr "custom"; "title" := JStr "Pre-rendering";
       "date" := JStr "2020-01-02" ]};
    {[ "id" := JStr "pre-rendering"; "title" := JStr "SSG vs SSR";
       "date" := JStr "2020-01-01"; "contentHtml" := JStr "plain" ]} ].

(** [getPostData "ssg-ssr"] over [blog]. *)
Definition ssg_ssr_post : object :=
  {[ "id" := JStr "ssg-ssr"; "title" := JStr "Pre-rendering";
     "date" := JStr "2020-01-02"; "contentHtml" := JStr sample_html ]}.

(** The scenario with the directory reporting its entries the other
    way round. *)
Definition blog_reordered : world := app [("posts", Dir (rev blog_posts))].

(** A posts directory with a subdirectory between two posts. *)
Definition blog_with_drafts : world :=
  app [("posts",
        Dir [("ssg-ssr.md", post_file "Pre-rendering" "2020-01-02" sample_body);
             ("drafts", Dir []);
             ("pre-rendering.md",
              post_file "SSG vs SSR" "2020-01-01" sample_body)])].

(** A posts directory with a directory that is named like a post. *)
Definition blog_with_archive : world :=
  app [("posts",
        Dir [("ssg-ssr.md", post_file "Pre-rendering" "2020-01-02" sample_body);
             ("archive.md", Dir [])])].

(** A posts directory with an undated text file among dated posts. *)
Definition blog_with_undated : world :=
  app [("posts",
        Dir [("a.md", post_file "First" "2020-01-01" sample_body);
             ("b-notes.txt", File "to do");
             ("c.md", post_file "Second" "2020-01-02" sample_body);
             ("d.md", post_file "Zeroth" "2019-12-31" sample_body)])].

Definition undated_summaries : list object :=
  [ {[ "id" := JStr "a"; "title" := JStr "First";
       "date" := JStr "2020-01-01" ]};
    {[ "id" := JStr "b-notes.txt" ]};
    {[ "id" := JStr "c"; "title" := JStr "Second";
       "date" := JStr "2020-01-02" ]};
    {[ "id" := JStr "d"; "title" := JStr "Zeroth";
       "date" := JStr "2019-12-31" ]} ].

(** A post whose front matter opens a flow sequence and never closes
    it. *)
Definition blog_with_broken : world :=
  app [("posts",
        Dir [("broken.md",
              File (unlines ["---"; "[unclosed"; "---"; "# Title"]))])].

(** A null byte. *)
Definition null_byte : string := String Ascii.zero "".

End Fixture.

(** ** Strings *)

Section StringFacts.

Lemma append_length (s t : string) :
  String.length (s +:+ t) = String.length s + String.length t.
Proof. induction s as [|c s IH]; simpl; [reflexivity | now rewrite IH]. Qed.

Lemma eqb_length_ne (s t : string) :
  String.length s <> String.length t -> String.eqb s t = false.
Proof.
  intros Hne. apply String.eqb_neq. intros ->. now apply Hne.
Qed.

Lemma replace_md_suffix_app (base : string) :
  replace_md_suffix (base +:+ ".md") = base.
Proof.
  induction base as [|c base IH].
  - reflexivity.
  - change (String c base +:+ ".md") with (String c (base +:+ ".md")).
    cbn [replace_md_suffix].
    rewrite eqb_length_ne.
    + now rewrite IH.
    + cbn [String.length]. rewrite append_length. simpl. lia.
Qed.

Lemma replace_md_suffix_keeps (s : string) :
  ends_with_md s = false -> replace_md_suffix s = s.
Proof.
  induction s as [|c s IH]; intros Hs.
  - reflexivity.
  - cbn [ends_with_md] in Hs. apply orb_false_iff in Hs as [Hne Hs].
    cbn [replace_md_suffix]. rewrite Hne. now rewrite IH.
Qed.

Lemma ends_with_md_split (s : string) :
  ends_with_md s = true -> exists base, s = base +:+ ".md".
Proof.
  induction s as [|c s IH]; intros Hs.
  - discriminate.
  - cbn [ends_with_md] in Hs. apply orb_true_iff in Hs as [Heq | Hs].
    + apply String.eqb_eq in Heq. exists "". now rewrite Heq.
    + destruct (IH Hs) as [base ->]. now exists (String c base).
Qed.

Lemma has_char_app (x : ascii) (s t : string) :
  has_char x (s +:+ t) = has_char x s || has_char x t.
Proof.
  induction s as [|c s IH]; simpl; [reflexivity|].
  rewrite IH. now rewrite orb_assoc.
Qed.

Lemma split_char_whole (sep : ascii) (s : string) :
  has_char sep s = false -> split_char sep s = [s].
Proof.
  induction s as [|c s IH]; intros Hs.
  - reflexivity.
  - simpl in Hs. apply orb_false_iff in Hs as [Hc Hs].
    simpl. rewrite Hc, (IH Hs). reflexivity.
Qed.

End StringFacts.

(** ** Paths and the file system *)

Section PathFacts.

Lemma valid_name_parts (name : string) :
  valid_name name = true ->
  String.eqb name "" = false /\ String.eqb name "." = false
  /\ String.eqb name ".." = false /\ has_char slash name = false
  /\ has_null_byte name = false.
Proof.
  unfold valid_name. rewrite !andb_true_iff, !negb_true_iff. tauto.
Qed.

Lemma join_valid_name (base : path) (name : string) :
  valid_name name = true -> Path.join base name = (base ++ [name])%list.
Proof.
  intros Hv. apply valid_name_parts in Hv as (H0 & H1 & H2 & Hs & _).
  unfold Path.join, split_slash. rewrite (split_char_whole _ _ Hs).
  cbn [fold_left]. unfold push_component. now rewrite H0, H1, H2.
Qed.

Lemma valid_name_md (id : string) :
  has_char slash id = false -> has_null_byte id = false ->
  valid_name (id +:+ ".md") = true.
Proof.
  intros Hs Hn. unfold valid_name, has_null_byte in *.
  rewrite !has_char_app, Hs, Hn.
  rewrite !eqb_length_ne; [reflexivity | | |];
    rewrite append_length; simpl; lia.
Qed.

Lemma valid_name_md_inv (id : string) :
  valid_name (id +:+ ".md") = true ->
  has_char slash id = false /\ has_null_byte id = false.
Proof.
  intros Hv. apply valid_name_parts in Hv as (_ & _ & _ & Hs & Hn).
  unfold has_null_byte in *. rewrite has_char_app in Hs, Hn.
  apply orb_false_iff in Hs as [Hs _]. apply orb_false_iff in Hn as [Hn _].
  now split.
Qed.

Lemma resolve_app (n : node) (p q : path) :
  resolve n (p ++ q)%list = let* m := resolve n p in resolve m q.
Proof.
  revert n. induction p as [|seg p IH]; intros n.
  - reflexivity.
  - simpl. destruct n as [c|entries]; [reflexivity|].
    destruct (lookup_entry seg entries); [apply IH | reflexivity].
Qed.

Lemma check_path_app (p : path) (name : string) :
  check_path p = Ok tt -> has_null_byte name = false ->
  check_path (p ++ [name])%list = Ok tt.
Proof.
  unfold check_path. intros Hp Hn. rewrite existsb_app. simpl.
  destruct (existsb has_null_byte p); [discriminate|].
  now rewrite Hn.
Qed.

Lemma lookup_entry_listed (name : string) (entries : list (string * node))
  (c : node) :
  lookup_entry name entries = Some c -> In name (map fst entries).
Proof.
  induction entries as [|[n d] rest IH]; simpl; [discriminate|].
  destruct (String.eqb n name) eqn:E.
  - apply String.eqb_eq in E. now left.
  - intros Hl. right. now apply IH.
Qed.

Lemma lookup_entry_distinct (entries : list (string * node)) (name : string)
  (c : node) :
  distinct (map fst entries) = true -> In (name, c) entries ->
  lookup_entry name entries = Some c.
Proof.
  induction entries as [|[n d] rest IH]; simpl; [tauto|].
  intros Hd Hin. apply andb_true_iff in Hd as [Hfresh Hd].
  destruct Hin as [Heq | Hin].
  - injection Heq as -> ->. now rewrite String.eqb_refl.
  - destruct (String.eqb n name) eqn:E.
    + apply String.eqb_eq in E. subst n.
      apply negb_true_iff in Hfresh.
      assert (existsb (String.eqb name) (map fst rest) = true) as Hex.
      { apply existsb_exists. exists name. split.
        - apply in_map_iff. now exists (name, c).
        - apply String.eqb_refl. }
      congruence.
    + now apply IH.
Qed.

Lemma listed_entry (entries : list (string * node)) (name : string) :
  In name (map fst entries) -> exists c, In (name, c) entries.
Proof.
  intros Hin. apply in_map_iff in Hin as [[n c] [Hn Hin]].
  simpl in Hn. subst n. now exists c.
Qed.

(** Reading an entry of the posts directory by its name. *)
Lemma read_posts_entry (w : world) (entries : list (string * node))
  (name : string) :
  posts_directory_is w entries -> valid_name name = true ->
  readFileSync (root w) (Path.join (postsDirectory w) name)
  = match lookup_entry name entries with
    | Some (File contents) => Ok contents
    | Some (Dir _) => Err EISDIR
    | None => Err ENOENT
    end.
Proof.
  intros [Hcheck Hres] Hv. rewrite (join_valid_name _ _ Hv).
  pose proof (valid_name_parts _ Hv) as (_ & _ & _ & _ & Hn).
  unfold readFileSync. rewrite (check_path_app _ _ Hcheck Hn).
  cbn [bind]. rewrite resolve_app, Hres. cbn [bind resolve].
  destruct (lookup_entry name entries) as [[c|es]|]; reflexivity.
Qed.

Lemma read_posts_listing (w : world) (entries : list (string * node)) :
  posts_directory_is w entries ->
  readdirSync (root w) (postsDirectory w) = Ok (map fst entries).
Proof.
  intros [Hcheck Hres]. unfold readdirSync. now rewrite Hcheck, Hres.
Qed.

Lemma well_formed_valid (entries : list (string * node)) (name : string) :
  well_formed_entries entries = true -> In name (map fst entries) ->
  valid_name name = true.
Proof.
  unfold well_formed_entries. intros Hw Hin.
  apply andb_true_iff in Hw as [Hv _].
  rewrite forallb_forall in Hv. now apply Hv.
Qed.

End PathFacts.

(** ** The order of strings *)

Section StringOrder.

Lemma ascii_compare_trans (c : comparison) (x y z : ascii) :
  Ascii.compare x y = c -> Ascii.compare y z = c -> Ascii.compare x z = c.
Proof.
  unfold Ascii.compare. destruct c; intros Hxy Hyz.
  - apply N.compare_eq_iff in Hxy, Hyz. apply N.compare_eq_iff. congruence.
  - rewrite N.compare_lt_iff in *. lia.
  - rewrite N.compare_gt_iff in *. lia.
Qed.

Lemma ascii_compare_eq (x y : ascii) : Ascii.compare x y = Eq -> x = y.
Proof.
  unfold Ascii.compare. intros Hxy. apply N.compare_eq_iff in Hxy.
  rewrite <- (ascii_N_embedding x), <- (ascii_N_embedding y). now rewrite Hxy.
Qed.

Lemma string_compare_lt_trans (x y z : string) :
  String.compare x y = Lt -> String.compare y z = Lt ->
  String.compare x z = Lt.
Proof.
  revert y z. induction x as [|a x IH]; intros [|b y] [|c z]; simpl;
    try congruence.
  destruct (Ascii.compare a b) eqn:Eab; try discriminate;
    destruct (Ascii.compare b c) eqn:Ebc; try discriminate; intros Hxy Hyz.
  - rewrite (ascii_compare_trans Eq a b c Eab Ebc). eauto.
  - apply ascii_compare_eq in Eab. subst b. now rewrite Ebc.
  - apply ascii_compare_eq in Ebc. subst c. now rewrite Eab.
  - now rewrite (ascii_compare_trans Lt a b c Eab Ebc).
Qed.

Lemma leb_trans (x y z : string) :
  String.leb x y = true -> String.leb y z = true -> String.leb x z = true.
Proof.
  unfold String.leb. intros Hxy Hyz.
  destruct (String.compare x y) eqn:Exy; try discriminate.
  - apply String.compare_eq_iff in Exy. now subst y.
  - destruct (String.compare y z) eqn:Eyz; try discriminate.
    + apply String.compare_eq_iff in Eyz. subst z. now rewrite Exy.
    + now rewrite (string_compare_lt_trans x y z Exy Eyz).
Qed.

Lemma ltb_false_leb (x y : string) :
  String.ltb x y = false -> String.leb y x = true.
Proof.
  unfold String.ltb, String.leb. rewrite (String.compare_antisym x y).
  destruct (String.compare y x); simpl; congruence.
Qed.

Lemma ltb_asym (x y : string) :
  String.ltb x y = true -> String.ltb y x = false.
Proof.
  unfold String.ltb. rewrite (String.compare_antisym x y).
  destruct (String.compare y x); simpl; congruence.
Qed.

End StringOrder.

(** ** [Array.prototype.map] and [Array.prototype.sort] *)

Section ArrayFacts.

Context {A B : Type}.

Lemma map_throwing_ok (f : A -> result B) (l : list A) (ys : list B) :
  map_throwing f l = Ok ys -> Forall2 (fun x y => f x = Ok y) l ys.
Proof.
  revert ys. induction l as [|x l IH]; simpl; intros ys Hm.
  - injection Hm as <-. constructor.
  - destruct (f x) as [y|e] eqn:Ef; [|discriminate]. cbn [bind] in Hm.
    destruct (map_throwing f l) as [ys'|e]; [|discriminate].
    injection Hm as <-. constructor; [assumption | now apply IH].
Qed.

Lemma map_throwing_all (f : A -> result B) (g : A -> B) (l : list A) :
  (forall x, In x l -> f x = Ok (g x)) -> map_throwing f l = Ok (map g l).
Proof.
  induction l as [|x l IH]; simpl; intros Hf; [reflexivity|].
  rewrite (Hf x) by now left. cbn [bind].
  rewrite IH by (intros; apply Hf; now right). reflexivity.
Qed.

Lemma map_throwing_ext (f g : A -> result B) (l : list A) :
  (forall x, In x l -> f x = g x) -> map_throwing f l = map_throwing g l.
Proof.
  induction l as [|x l IH]; simpl; intros Hfg; [reflexivity|].
  rewrite (Hfg x) by now left.
  rewrite IH by (intros; apply Hfg; now right). reflexivity.
Qed.

Variable comparefn : B -> B -> Z.

Lemma insert_leftwards_perm (element : B) (rev_prefix : list B) :
  Permutation (insert_leftwards comparefn element rev_prefix)
              (element :: rev_prefix).
Proof.
  induction rev_prefix as [|tmp rest IH]; simpl; [reflexivity|].
  destruct (0 <? comparefn tmp element)%Z; [|reflexivity].
  rewrite IH. apply perm_swap.
Qed.

Lemma array_sort_perm (l : list B) : Permutation (array_sort comparefn l) l.
Proof.
  unfold array_sort. rewrite <- Permutation_rev.
  assert (forall acc,
             Permutation
               (fold_left (fun rp e => insert_leftwards comparefn e rp) l acc)
               (l ++ acc)%list) as Hgen.
  { induction l as [|x l IH]; intros acc; simpl; [reflexivity|].
    rewrite IH, insert_leftwards_perm. symmetry. apply Permutation_middle. }
  rewrite Hgen. now rewrite app_nil_r.
Qed.

Hypothesis comparefn_asym :
  forall x y, (0 < comparefn x y)%Z -> (comparefn y x <= 0)%Z.

Lemma insert_leftwards_sorted (element : B) (rev_prefix : list B) :
  Sorted (sort_respects comparefn) rev_prefix ->
  Sorted (sort_respects comparefn) (insert_leftwards comparefn element rev_prefix).
Proof.
  induction rev_prefix as [|tmp rest IH]; simpl; intros Hs.
  - repeat constructor.
  - destruct (0 <? comparefn tmp element)%Z eqn:E.
    + apply Z.ltb_lt in E. inversion Hs as [|? ? Hrest Hhd]; subst.
      constructor; [now apply IH|].
      destruct rest as [|t rest']; simpl.
      * constructor. now apply comparefn_asym.
      * destruct (0 <? comparefn t element)%Z.
        -- inversion Hhd; subst. now constructor.
        -- constructor. now apply comparefn_asym.
    + apply Z.ltb_ge in E. constructor; [assumption|]. now constructor.
Qed.

Lemma sorted_middle (R : B -> B -> Prop) (p q : list B) (x y : B) :
  Sorted R (p ++ x :: y :: q)%list -> R x y.
Proof.
  induction p as [|z p IH]; simpl; intros Hs.
  - inversion Hs as [|? ? _ Hhd]; subst. now inversion Hhd.
  - inversion Hs; subst. now apply IH.
Qed.

Lemma adjacent_split (l : list B) (i : nat) (a b : B) :
  l !! i = Some a -> l !! S i = Some b ->
  exists p q, l = (p ++ a :: b :: q)%list.
Proof.
  revert l. induction i as [|i IH]; intros [|x l]; simpl; try discriminate.
  - destruct l as [|y l]; simpl; [discriminate|].
    intros [= ->] [= ->]. now exists [], l.
  - intros Ha Hb. destruct (IH l Ha Hb) as (p & q & ->).
    now exists (x :: p), q.
Qed.

Lemma insertion_pass_sorted (l acc : list B) :
  Sorted (sort_respects comparefn) acc ->
  Sorted (sort_respects comparefn)
    (fold_left (fun rp e => insert_leftwards comparefn e rp) l acc).
Proof.
  revert acc. induction l as [|x l IH]; intros acc Hacc; simpl.
  - assumption.
  - apply IH. now apply insert_leftwards_sorted.
Qed.

(** No element of the sorted array is followed by one that the
    comparison function puts before it. *)
Lemma array_sort_adjacent (l : list B) (i : nat) (a b : B) :
  array_sort comparefn l !! i = Some a ->
  array_sort comparefn l !! S i = Some b ->
  (comparefn a b <= 0)%Z.
Proof.
  intros Ha Hb. destruct (adjacent_split _ _ _ _ Ha Hb) as (p & q & Hl).
  unfold array_sort in Hl.
  pose proof (insertion_pass_sorted l [] (Sorted_nil _)) as Hgen.
  apply (f_equal (@rev B)) in Hl. rewrite rev_involutive in Hl.
  rewrite Hl in Hgen. rewrite rev_app_distr in Hgen. simpl in Hgen.
  rewrite <- !app_assoc in Hgen. simpl in Hgen.
  exact (sorted_middle (sort_respects comparefn) _ _ _ _ Hgen).
Qed.

End ArrayFacts.

(** ** The three queries *)

Section QueryFacts.

Context `{Deps}.

Lemma spread_lookup (base extra : object) (k : string) :
  spread base extra !! k
  = match extra !! k with
    | Some v => Some v
    | None => base !! k
    end.
Proof.
  unfold spread. rewrite lookup_union.
  destruct (extra !! k), (base !! k); reflexivity.
Qed.

Lemma bind_ok {A B : Type} (r : result A) (k : A -> result B) (b : B) :
  bind r k = Ok b -> exists a, r = Ok a /\ k a = Ok b.
Proof. destruct r as [a|e]; simpl; [eauto | discriminate]. Qed.

Lemma post_summary_ok (w : world) (fileName : string) (r : object) :
  post_summary w fileName = Ok r ->
  exists contents mr,
    readFileSync (root w) (Path.join (postsDirectory w) fileName)
    = Ok contents
    /\ matter contents = Ok mr
    /\ r = spread {[ "id" := JStr (replace_md_suffix fileName) ]} (data mr).
Proof.
  unfold post_summary. intros Hp.
  apply bind_ok in Hp as (contents & Hread & Hp).
  apply bind_ok in Hp as (mr & Hm & Hp).
  injection Hp as <-. now exists contents, mr.
Qed.

Lemma getSortedPostsData_ok (w : world) (l : list object) :
  getSortedPostsData w = Ok l ->
  exists fileNames allPostsData,
    readdirSync (root w) (postsDirectory w) = Ok fileNames
    /\ Forall2 (fun f r => post_summary w f = Ok r) fileNames allPostsData
    /\ l = array_sort by_date allPostsData.
Proof.
  unfold getSortedPostsData. intros Hg.
  apply bind_ok in Hg as (fileNames & Hdir & Hg).
  apply bind_ok in Hg as (allPostsData & Hmap & Hg).
  injection Hg as <-. exists fileNames, allPostsData.
  split; [assumption|]. split; [|reflexivity].
  now apply map_throwing_ok.
Qed.

Lemma getPostData_ok (w : world) (id : string) (r : object) :
  getPostData w id = Ok r ->
  exists contents mr,
    readFileSync (root w) (Path.join (postsDirectory w) (id +:+ ".md"))
    = Ok contents
    /\ matter contents = Ok mr
    /\ r = spread (<[ "contentHtml" := JStr (remark_html (content mr)) ]>
                     {[ "id" := JStr id ]})
                  (data mr).
Proof.
  unfold getPostData. intros Hp.
  apply bind_ok in Hp as (contents & Hread & Hp).
  apply bind_ok in Hp as (mr & Hm & Hp).
  injection Hp as <-. now exists contents, mr.
Qed.

Lemma js_lt_dates (a b : object) :
  js_lt (a !! "date") (b !! "date")
  = match date_of a, date_of b with
    | Some da, Some db => String.ltb da db
    | _, _ => false
    end.
Proof.
  unfold js_lt, date_of.
  destruct (a !! "date"), (b !! "date"); reflexivity.
Qed.

Lemma by_date_asym (x y : object) :
  (0 < by_date x y)%Z -> (by_date y x <= 0)%Z.
Proof.
  unfold by_date. rewrite !js_lt_dates.
  destruct (date_of x) as [dx|], (date_of y) as [dy|]; try lia.
  destruct (String.ltb dx dy) eqn:E; [|lia].
  rewrite (ltb_asym _ _ E). lia.
Qed.

Lemma by_date_order (a b : object) (da db : string) :
  (by_date a b <= 0)%Z -> date_of a = Some da -> date_of b = Some db ->
  String.leb db da = true.
Proof.
  unfold by_date. rewrite js_lt_dates. intros Hc Ha Hb.
  rewrite Ha, Hb in Hc.
  destruct (String.ltb da db) eqn:E; [lia|].
  now apply ltb_false_leb.
Qed.

Lemma sorted_posts_adjacent (l : list object) (i : nat) (a b : object)
  (da db : string) :
  array_sort by_date l !! i = Some a ->
  array_sort by_date l !! S i = Some b ->
  date_of a = Some da -> date_of b = Some db ->
  String.leb db da = true.
Proof.
  intros Ha Hb Hda Hdb.
  apply (by_date_order a b); [|assumption..].
  exact (array_sort_adjacent by_date by_date_asym l i a b Ha Hb).
Qed.

(** With a date on every record the order holds between any two
    positions. *)
Lemma dated_posts_descend (l : list object) :
  adjacent_dates_descend l -> all_dated l -> dates_descend l.
Proof.
  unfold adjacent_dates_descend, all_dated, dates_descend.
  intros Hadj Hall i j. revert i.
  induction j as [|j IH]; intros i a b da db Hij Ha Hb Hda Hdb; [lia|].
  destruct (decide (i = j)) as [->|Hne].
  - exact (Hadj j a b da db Ha Hb Hda Hdb).
  - assert (is_Some (l !! j)) as [c Hc].
    { apply lookup_lt_is_Some. apply lookup_lt_Some in Hb. lia. }
    assert (is_Some (date_of c)) as [dc Hdc].
    { rewrite Forall_forall in Hall. apply Hall.
      apply list_elem_of_lookup. now exists j. }
    apply (leb_trans db dc da).
    + exact (Hadj j c b dc db Hc Hb Hdc Hdb).
    + apply (IH i a c da dc); [lia | assumption..].
Qed.

Lemma Forall2_in_l {A B : Type} (P : A -> B -> Prop) (l : list A)
  (ys : list B) (x : A) :
  Forall2 P l ys -> In x l -> exists y, In y ys /\ P x y.
Proof.
  induction 1 as [|x' y' l' ys' Hxy _ IH]; simpl; [tauto|].
  intros [<- | Hin].
  - exists y'. auto.
  - destruct (IH Hin) as (y & Hy & Hp). exists y. auto.
Qed.

Lemma Forall2_in_r {A B : Type} (P : A -> B -> Prop) (l : list A)
  (ys : list B) (y : B) :
  Forall2 P l ys -> In y ys -> exists x, In x l /\ P x y.
Proof.
  induction 1 as [|x' y' l' ys' Hxy _ IH]; simpl; [tauto|].
  intros [<- | Hin].
  - exists x'. auto.
  - destruct (IH Hin) as (x & Hx & Hp). exists x. auto.
Qed.

(** The records of the listing are the summaries of the listed files. *)
Lemma summaries_records (w : world) (l : list object) :
  getSortedPostsData w = Ok l ->
  exists fileNames,
    readdirSync (root w) (postsDirectory w) = Ok fileNames
    /\ length l = length fileNames
    /\ (forall r, In r l ->
                  exists f, In f fileNames /\ post_summary w f = Ok r)
    /\ (forall f, In f fileNames ->
                  exists r, In r l /\ post_summary w f = Ok r).
Proof.
  intros Hg. apply getSortedPostsData_ok in Hg
    as (fileNames & allPostsData & Hdir & Hall & ->).
  exists fileNames. split; [assumption|].
  pose proof (array_sort_perm by_date allPostsData) as Hperm.
  split; [|split].
  - rewrite (Permutation_length Hperm). symmetry.
    eapply Forall2_length, Hall.
  - intros r Hr. apply (Permutation_in _ Hperm) in Hr.
    exact (Forall2_in_r _ _ _ _ Hall Hr).
  - intros f Hf. destruct (Forall2_in_l _ _ _ _ Hall Hf) as (r & Hr & Hp).
    exists r. split; [|assumption].
    apply (Permutation_in _ (Permutation_sym Hperm)). assumption.
Qed.

Lemma summaries_of_files (w : world) (l : list object) :
  getSortedPostsData w = Ok l ->
  exists fileNames all,
    readdirSync (root w) (postsDirectory w) = Ok fileNames
    /\ Forall2 (summary_of_file w) fileNames all
    /\ Permutation l all.
Proof.
  intros Hg. apply getSortedPostsData_ok in Hg
    as (fileNames & all & Hdir & Hall & ->).
  exists fileNames, all. split; [assumption|]. split.
  - eapply Forall2_impl; [exact Hall|]. intros f r Hp.
    destruct (post_summary_ok _ _ _ Hp) as (contents & mr & Hread & Hm & ->).
    now exists contents, mr.
  - apply array_sort_perm.
Qed.

Lemma summary_of_file_unique (w : world) (f : string) (r r' : object) :
  summary_of_file w f r -> summary_of_file w f r' -> r = r'.
Proof.
  intros (c & mr & Hread & Hm & ->) (c' & mr' & Hread' & Hm' & ->).
  rewrite Hread in Hread'. injection Hread' as <-.
  rewrite Hm in Hm'. now injection Hm' as <-.
Qed.

Lemma params_id_static_path (fileName : string) :
  params_id (static_path fileName) = Some (replace_md_suffix fileName).
Proof.
  unfold params_id, static_path.
  rewrite lookup_singleton_eq. now rewrite lookup_singleton_eq.
Qed.

Lemma forallb_filter_all {A : Type} (f : A -> bool) (l : list A) :
  forallb f l = true -> List.filter f l = l.
Proof.
  induction l as [|x l IH]; simpl; [reflexivity|].
  intros Hf. apply andb_true_iff in Hf as [Hx Hl].
  rewrite Hx. now rewrite IH.
Qed.

End QueryFacts.

(** ** The cache of gray-matter over a sequence of calls *)

Section CacheFacts.

Context `{Deps}.

Lemma matter_call_grows (cache cache1 : matter_cache) (input : string)
  (r : result matterResult) :
  matter_call cache input = (r, cache1) -> cache ⊆ cache1.
Proof.
  unfold matter_call. destruct (String.eqb input "").
  - now intros [= _ <-].
  - destruct (cache !! input) as [file|] eqn:E.
    + now intros [= _ <-].
    + destruct (matter input); intros [= _ <-]; now apply insert_subseteq.
Qed.

Lemma matter_call_again (cache cache1 later : matter_cache) (input : string)
  (file : matterResult) :
  matter_call cache input = (Ok file, cache1) -> cache1 ⊆ later ->
  matter_call later input = (Ok file, later).
Proof.
  unfold matter_call. destruct (String.eqb input "").
  - now intros [= <- _] _.
  - destruct (cache !! input) as [cached|] eqn:E.
    + intros [= <- <-] Hsub. now rewrite (lookup_weaken _ _ _ _ E Hsub).
    + destruct (matter input) as [parsed|e]; [|discriminate].
      intros [= <- <-] Hsub.
      now rewrite (lookup_weaken _ _ _ _ (lookup_insert_eq _ _ _) Hsub).
Qed.

Lemma post_summary_call_grows (w : world) (cache cache1 : matter_cache)
  (f : string) (r : result object) :
  post_summary_call w cache f = (r, cache1) -> cache ⊆ cache1.
Proof.
  unfold post_summary_call.
  destruct (readFileSync _ _) as [contents|e]; [|now intros [= _ <-]].
  destruct (matter_call cache contents) as [parsed cache'] eqn:E.
  intros [= _ <-]. exact (matter_call_grows _ _ _ _ E).
Qed.

Lemma post_summary_call_again (w : world) (cache cache1 later : matter_cache)
  (f : string) (r : object) :
  post_summary_call w cache f = (Ok r, cache1) -> cache1 ⊆ later ->
  post_summary_call w later f = (Ok r, later).
Proof.
  unfold post_summary_call.
  destruct (readFileSync _ _) as [contents|e]; [|discriminate].
  destruct (matter_call cache contents) as [[file|e] cache'] eqn:E;
    [|discriminate].
  cbn [bind]. intros [= <- <-] Hsub.
  now rewrite (matter_call_again _ _ _ _ _ E Hsub).
Qed.

Lemma map_calls_grows (w : world) (l : list string)
  (cache cache1 : matter_cache) (r : result (list object)) :
  map_calls (post_summary_call w) cache l = (r, cache1) -> cache ⊆ cache1.
Proof.
  revert cache r. induction l as [|f l IH]; intros cache r; simpl.
  - now intros [= _ <-].
  - destruct (post_summary_call w cache f) as [[y|e] c1] eqn:E.
    + destruct (map_calls (post_summary_call w) c1 l) as [rest c2] eqn:El.
      intros [= _ <-]. transitivity c1.
      * exact (post_summary_call_grows _ _ _ _ _ E).
      * exact (IH _ _ El).
    + intros [= _ <-]. exact (post_summary_call_grows _ _ _ _ _ E).
Qed.

Lemma map_calls_again (w : world) (l : list string)
  (cache cache1 later : matter_cache) (ys : list object) :
  map_calls (post_summary_call w) cache l = (Ok ys, cache1) ->
  cache1 ⊆ later ->
  map_calls (post_summary_call w) later l = (Ok ys, later).
Proof.
  revert cache ys. induction l as [|f l IH]; intros cache ys; simpl.
  - now intros [= <- _] _.
  - destruct (post_summary_call w cache f) as [[y|e] c1] eqn:E;
      [|discriminate].
    destruct (map_calls (post_summary_call w) c1 l) as [[rest|e] c2] eqn:El;
      [|discriminate].
    cbn [bind]. intros [= <- <-] Hsub.
    rewrite (post_summary_call_again _ _ _ later _ _ E).
    + now rewrite (IH _ _ El Hsub).
    + transitivity c2; [|assumption]. exact (map_calls_grows _ _ _ _ _ El).
Qed.

Lemma getSortedPostsData_call_again (w : world)
  (cache cache1 later : matter_cache) (l : list object) :
  getSortedPostsData_call w cache = (Ok l, cache1) -> cache1 ⊆ later ->
  getSortedPostsData_call w later = (Ok l, later).
Proof.
  unfold getSortedPostsData_call.
  destruct (readdirSync _ _) as [names|e]; [|discriminate].
  destruct (map_calls (post_summary_call w) cache names) as [[all|e] c1]
    eqn:E; [|discriminate].
  cbn [bind]. intros [= <- <-] Hsub.
  now rewrite (map_calls_again _ _ _ _ _ _ E Hsub).
Qed.

Lemma getPostData_call_again (w : world) (cache cache1 later : matter_cache)
  (id : string) (r : object) :
  getPostData_call w cache id = (Ok r, cache1) -> cache1 ⊆ later ->
  getPostData_call w later id = (Ok r, later).
Proof.
  unfold getPostData_call.
  destruct (readFileSync _ _) as [contents|e]; [|discriminate].
  destruct (matter_call cache contents) as [[file|e] cache'] eqn:E;
    [|discriminate].
  cbn [bind]. intros [= <- <-] Hsub.
  now rewrite (matter_call_again _ _ _ _ _ E Hsub).
Qed.

(** Within one call the cache does not show: the call returns what the
    query of the three-query embedding returns with [matter] answered
    as the call sees it. *)
Lemma getPostData_call_seen (w : world) (cache : matter_cache) (id : string) :
  (getPostData_call w cache id).1 = @getPostData (deps_seen cache) w id.
Proof.
  unfold getPostData_call, getPostData.
  destruct (readFileSync _ _) as [contents|e]; [|reflexivity].
  cbn [bind matter deps_seen]. unfold matter_seen.
  now destruct (matter_call cache contents) as [[file|e] cache'].
Qed.

Lemma map_calls_seen (w : world) (cache : matter_cache) (l : list string) :
  forall current,
    (forall input, matter_seen current input = matter_seen cache input) ->
    (map_calls (post_summary_call w) current l).1
    = map_throwing (@post_summary (deps_seen cache) w) l.
Proof.
  induction l as [|f l IH]; intros current Hsame; [reflexivity|].
  cbn [map_calls map_throwing]. unfold post_summary_call at 1, post_summary at 1.
  destruct (readFileSync _ _) as [contents|e]; [|reflexivity].
  cbn [bind matter deps_seen]. rewrite <- (Hsame contents).
  unfold matter_seen at 1.
  destruct (matter_call current contents) as [[file|e] c1] eqn:E;
    [|reflexivity].
  cbn [bind fst].
  destruct (map_calls (post_summary_call w) c1 l) as [rest c2] eqn:El.
  cbn [fst]. rewrite <- (IH c1).
  - now rewrite El.
  - intros input. rewrite <- Hsame. unfold matter_seen.
    unfold matter_call in E |- *.
    destruct (String.eqb contents "") eqn:E0.
    { now injection E as _ <-. }
    destruct (current !! contents) as [cached|] eqn:Ec.
    { now injection E as _ <-. }
    destruct (matter contents) as [parsed|e] eqn:Em; [|discriminate].
    injection E as <- <-.
    destruct (String.eqb input ""); [reflexivity|].
    destruct (decide (contents = input)) as [<-|Hne].
    + now rewrite lookup_insert_eq, Ec, Em.
    + rewrite lookup_insert_ne by assumption.
      destruct (current !! input); [reflexivity|].
      now destruct (matter input).
Qed.

Lemma getSortedPostsData_call_seen (w : world) (cache : matter_cache) :
  (getSortedPostsData_call w cache).1
  = @getSortedPostsData (deps_seen cache) w.
Proof.
  unfold getSortedPostsData_call, getSortedPostsData.
  destruct (readdirSync _ _) as [names|e]; [|reflexivity].
  cbn [bind]. rewrite <- (map_calls_seen w cache names cache) by reflexivity.
  now destruct (map_calls (post_summary_call w) cache names) as [[all|e] c1].
Qed.

End CacheFacts.

(** ** The properties of the specification *)

Section Properties.

Context `{Deps}.

(** C1, as the code has it. For every identifier [id] such that the
    posts directory holds a regular file [id.md] whose front matter
    parses and declares no [id] key of its own, [id] is among the
    identifiers [getAllPostIds] returns, and [getPostData id] succeeds
    with a record whose [id] field is [id]. *)
Theorem listed_markdown_posts_resolve (w : world)
  (entries : list (string * node)) (id contents : string)
  (mr : matterResult) :
  posts_directory_is w entries ->
  well_formed_entries entries = true ->
  lookup_entry (id +:+ ".md") entries = Some (File contents) ->
  matter contents = Ok mr ->
  data mr !! "id" = None ->
  (exists l o, getAllPostIds w = Ok l /\ In o l /\ params_id o = Some id)
  /\ (exists r, getPostData w id = Ok r /\ r !! "id" = Some (JStr id)).
Proof.
  intros Hdir Hwf Hfile Hm Hid.
  pose proof (lookup_entry_listed _ _ _ Hfile) as Hlisted.
  pose proof (well_formed_valid _ _ Hwf Hlisted) as Hvalid.
  split.
  - exists (map static_path (map fst entries)), (static_path (id +:+ ".md")).
    split; [|split].
    + unfold getAllPostIds. now rewrite (read_posts_listing _ _ Hdir).
    + now apply in_map.
    + now rewrite params_id_static_path, replace_md_suffix_app.
  - unfold getPostData.
    rewrite (read_posts_entry _ _ _ Hdir Hvalid), Hfile. cbn [bind].
    rewrite Hm. cbn [bind]. eexists. split; [reflexivity|].
    rewrite spread_lookup, Hid.
    rewrite lookup_insert_ne by discriminate.
    apply lookup_singleton_eq.
Qed.

(** C2, as the code has it. Whenever [getSortedPostsData] returns and
    every record of the result carries a date, the result is a
    rearrangement of the summaries of the listed files and is in
    non-increasing order of the date strings: every two neighbours are,
    any two positions are, and a post dated 2020-01-02 stands before
    one dated 2020-01-01. *)
Theorem dated_summaries_sorted_by_date (w : world) (l : list object) :
  getSortedPostsData w = Ok l ->
  all_dated l ->
  (exists fileNames all,
      readdirSync (root w) (postsDirectory w) = Ok fileNames
      /\ Forall2 (summary_of_file w) fileNames all
      /\ Permutation l all)
  /\ (forall i a b,
         l !! i = Some a -> l !! S i = Some b ->
         exists da db,
           date_of a = Some da /\ date_of b = Some db
           /\ String.leb db da = true)
  /\ dates_descend l
  /\ (forall i j a b,
         l !! i = Some a -> l !! j = Some b ->
         date_of a = Some "2020-01-02" -> date_of b = Some "2020-01-01" ->
         i < j).
Proof.
  intros Hg Hall. split; [now apply summaries_of_files|].
  apply getSortedPostsData_ok in Hg as (names & all & _ & _ & ->).
  assert (adjacent_dates_descend (array_sort by_date all)) as Hadj.
  { intros i a b da db. apply sorted_posts_adjacent. }
  pose proof (dated_posts_descend _ Hadj Hall) as Hdesc.
  split; [|split; [assumption|]].
  - intros i a b Ha Hb.
    assert (is_Some (date_of a)) as [da Hda].
    { unfold all_dated in Hall. rewrite Forall_forall in Hall.
      apply Hall, list_elem_of_lookup. now exists i. }
    assert (is_Some (date_of b)) as [db Hdb].
    { unfold all_dated in Hall. rewrite Forall_forall in Hall.
      apply Hall, list_elem_of_lookup. now exists (S i). }
    exists da, db. split; [assumption|]. split; [assumption|].
    exact (Hadj i a b da db Ha Hb Hda Hdb).
  - intros i j a b Ha Hb Hda Hdb.
    destruct (Nat.lt_trichotomy i j) as [Hlt | [-> | Hgt]]; [assumption | |].
    + rewrite Ha in Hb. injection Hb as ->. rewrite Hda in Hdb. discriminate.
    + pose proof (Hdesc j i b a _ _ Hgt Hb Ha Hdb Hda) as Hle.
      vm_compute in Hle. discriminate.
Qed.

(** C3, as the code has it. Every element [getAllPostIds] returns is an
    object with the single key [params], whose value is an object with
    the single key [id] holding the file name without its [.md]; for a
    directory that holds exactly ssg-ssr.md and pre-rendering.md the
    result is exactly the set of [{params: {id: "ssg-ssr"}}] and
    [{params: {id: "pre-rendering"}}]. *)
Theorem post_ids_wrapped_in_params (w : world)
  (entries : list (string * node)) :
  posts_directory_is w entries ->
  exists l,
    getAllPostIds w = Ok l
    /\ l = map (fun f => {[ "params" :=
                              JObj {[ "id" := JStr (replace_md_suffix f) ]} ]})
               (map fst entries)
    /\ (Permutation (map fst entries) ["ssg-ssr.md"; "pre-rendering.md"] ->
        forall o : object,
          In o l <->
          o = {[ "params" := JObj {[ "id" := JStr "ssg-ssr" ]} ]}
          \/ o = {[ "params" := JObj {[ "id" := JStr "pre-rendering" ]} ]}).
Proof.
  intros Hdir. eexists. split; [|split].
  - unfold getAllPostIds. rewrite (read_posts_listing _ _ Hdir). reflexivity.
  - reflexivity.
  - intros Hperm o. fold static_path.
    change ({[ "params" := JObj {[ "id" := JStr "ssg-ssr" ]} ]} : object)
      with (static_path "ssg-ssr.md").
    change ({[ "params" := JObj {[ "id" := JStr "pre-rendering" ]} ]} : object)
      with (static_path "pre-rendering.md").
    rewrite (Permutation_map static_path Hperm) at 1. simpl.
    split; [intros [<- | [<- | []]] | intros [-> | ->]]; auto.
Qed.

(** C4, as the code has it. The identifier of a source file is its name
    without a closing [.md]: for a file [base.md] it is [base], and a
    name that does not end in [.md] is kept whole. This is the
    identifier in the elements of [getAllPostIds] and the derived [id]
    in the records of [getSortedPostsData]; [getPostData id] reads the
    file named [id.md]. *)
Theorem identifier_strips_md (w : world) (fileNames : list string) :
  readdirSync (root w) (postsDirectory w) = Ok fileNames ->
  (forall base, replace_md_suffix (base +:+ ".md") = base)
  /\ (forall f, ends_with_md f = false -> replace_md_suffix f = f)
  /\ getAllPostIds w
     = Ok (map (fun f => {[ "params" :=
                              JObj {[ "id" := JStr (replace_md_suffix f) ]} ]})
               fileNames)
  /\ (forall l r,
         getSortedPostsData w = Ok l -> In r l ->
         exists f contents mr,
           In f fileNames
           /\ readFileSync (root w) (Path.join (postsDirectory w) f)
              = Ok contents
           /\ matter contents = Ok mr
           /\ r = spread {[ "id" := JStr (replace_md_suffix f) ]} (data mr))
  /\ (forall id r,
         getPostData w id = Ok r ->
         exists contents mr,
           readFileSync (root w)
             (Path.join (postsDirectory w) (id +:+ ".md")) = Ok contents
           /\ matter contents = Ok mr
           /\ replace_md_suffix (id +:+ ".md") = id).
Proof.
  intros Hdir. split; [exact replace_md_suffix_app|].
  split; [exact replace_md_suffix_keeps|]. split; [|split].
  - unfold getAllPostIds. now rewrite Hdir.
  - intros l r Hg Hr.
    destruct (summaries_records _ _ Hg) as (names & Hnames & _ & Hrec & _).
    rewrite Hdir in Hnames. injection Hnames as <-.
    destruct (Hrec r Hr) as (f & Hf & Hp).
    destruct (post_summary_ok _ _ _ Hp) as (contents & mr & Hread & Hm & ->).
    now exists f, contents, mr.
  - intros id r Hp.
    destruct (getPostData_ok _ _ _ Hp) as (contents & mr & Hread & Hm & _).
    exists contents, mr. auto using replace_md_suffix_app.
Qed.

(** C5, as the code has it. For every identifier without a slash and
    without a null byte such that the posts directory has no entry
    named [id.md], [getPostData id] fails with the not-found error
    ENOENT and returns no record. *)
Theorem missing_post_is_not_found (w : world)
  (entries : list (string * node)) (id : string) :
  posts_directory_is w entries ->
  has_char slash id = false ->
  has_null_byte id = false ->
  lookup_entry (id +:+ ".md") entries = None ->
  getPostData w id = Err ENOENT.
Proof.
  intros Hdir Hslash Hnull Hmiss. unfold getPostData.
  rewrite (read_posts_entry _ _ _ Hdir (valid_name_md _ Hslash Hnull)).
  now rewrite Hmiss.
Qed.

(** C6, as the code has it. [getSortedPostsData] adds no [contentHtml]
    of its own: every record it returns is the summary of a listed
    file, the front matter of that file spread over the identifier of
    its name, and the [contentHtml] of the record is the one the front
    matter of that file declares, absent when it declares none. Every
    record [getPostData] returns has a [contentHtml] field. *)
Theorem body_added_only_when_fetched (w : world) :
  (forall l r,
      getSortedPostsData w = Ok l -> In r l ->
      exists fileNames f contents mr,
        readdirSync (root w) (postsDirectory w) = Ok fileNames
        /\ In f fileNames
        /\ readFileSync (root w) (Path.join (postsDirectory w) f)
           = Ok contents
        /\ matter contents = Ok mr
        /\ r = spread {[ "id" := JStr (replace_md_suffix f) ]} (data mr)
        /\ r !! "contentHtml" = data mr !! "contentHtml")
  /\ (forall id r, getPostData w id = Ok r -> is_Some (r !! "contentHtml")).
Proof.
  split.
  - intros l r Hg Hr.
    destruct (summaries_records _ _ Hg) as (names & Hnames & _ & Hrec & _).
    destruct (Hrec r Hr) as (f & Hf & Hp).
    destruct (post_summary_ok _ _ _ Hp) as (contents & mr & Hread & Hm & ->).
    exists names, f, contents, mr.
    repeat (split; [assumption || reflexivity|]).
    rewrite spread_lookup.
    destruct (data mr !! "contentHtml"); [reflexivity|].
    now rewrite lookup_singleton_ne.
  - intros id r Hp.
    destruct (getPostData_ok _ _ _ Hp) as (contents & mr & _ & _ & ->).
    rewrite spread_lookup.
    destruct (data mr !! "contentHtml"); [eauto|].
    rewrite lookup_insert_eq. eauto.
Qed.

(** C7. Whenever [getSortedPostsData] returns, over a posts directory
    whose entries are well formed, the length of the result is the
    number of source files in the directory, which are all of its
    entries: none is left out. *)
Theorem summaries_cover_directory (w : world)
  (entries : list (string * node)) (l : list object) :
  posts_directory_is w entries ->
  well_formed_entries entries = true ->
  getSortedPostsData w = Ok l ->
  length l = length (List.filter is_file entries)
  /\ List.filter is_file entries = entries.
Proof.
  intros Hdir Hwf Hg.
  destruct (summaries_records _ _ Hg) as (names & Hnames & Hlen & _ & Hall).
  rewrite (read_posts_listing _ _ Hdir) in Hnames. injection Hnames as <-.
  assert (List.filter is_file entries = entries) as Hfiles.
  { apply forallb_filter_all, forallb_forall. intros [f n] Hin.
    assert (In f (map fst entries)) as Hf.
    { apply in_map_iff. now exists (f, n). }
    destruct (Hall f Hf) as (r & _ & Hp).
    destruct (post_summary_ok _ _ _ Hp) as (contents & mr & Hread & _).
    rewrite (read_posts_entry _ _ _ Hdir (well_formed_valid _ _ Hwf Hf))
      in Hread.
    unfold well_formed_entries in Hwf. apply andb_true_iff in Hwf as [_ Hd].
    rewrite (lookup_entry_distinct _ _ _ Hd Hin) in Hread.
    destruct n; [reflexivity | discriminate]. }
  rewrite Hfiles. split; [|reflexivity].
  now rewrite Hlen, length_map.
Qed.

(** C8, as the code has it. Over an unchanged snapshot [getAllPostIds]
    returns the same on every call; once a call of [getSortedPostsData]
    or of [getPostData] has returned, every later call with the same
    argument returns the equal result, whatever went through the cache
    of gray-matter in between; and a call of [getPostData] that fails in
    the file system fails in the same way when it is repeated. *)
Theorem repeated_calls_agree_when_they_return (w : world)
  (cache : matter_cache) :
  (forall later, (getAllPostIds_call w later).1
                 = (getAllPostIds_call w cache).1)
  /\ (forall l cache1 later,
         getSortedPostsData_call w cache = (Ok l, cache1) ->
         cache1 ⊆ later ->
         getSortedPostsData_call w later = (Ok l, later))
  /\ (forall id r cache1 later,
         getPostData_call w cache id = (Ok r, cache1) ->
         cache1 ⊆ later ->
         getPostData_call w later id = (Ok r, later))
  /\ (forall id e cache1,
         getPostData_call w cache id = (Err e, cache1) ->
         readFileSync (root w) (Path.join (postsDirectory w) (id +:+ ".md"))
         = Err e ->
         getPostData_call w cache1 id = (Err e, cache1)).
Proof.
  split; [reflexivity|]. split; [|split].
  - intros l cache1 later. apply getSortedPostsData_call_again.
  - intros id r cache1 later. apply getPostData_call_again.
  - intros id e cache1 _ Hread. unfold getPostData_call. now rewrite Hread.
Qed.



End Properties.

(** ** The properties on the sample trees *)

Import Fixture.

Example replace_md_file : replace_md_suffix "ssg-ssr.md" = "ssg-ssr".
Proof. reflexivity. Qed.

Example replace_md_inner : replace_md_suffix "a.md.txt" = "a.md.txt".
Proof. reflexivity. Qed.

Example replace_md_twice : replace_md_suffix "a.md.md" = "a.md".
Proof. reflexivity. Qed.

Example join_name :
  Path.join ["app"; "posts"] "ssg-ssr.md" = ["app"; "posts"; "ssg-ssr.md"].
Proof. reflexivity. Qed.

Example join_parent :
  Path.join ["app"; "posts"] "../README.md" = ["app"; "README.md"].
Proof. reflexivity. Qed.

Example join_above_root : Path.join ["app"] "../../x/./y.md" = ["x"; "y.md"].
Proof. reflexivity. Qed.

Example sort_descending :
  array_sort (fun a b => if (a <? b)%Z then 1 else -1)%Z [1; 3; 2]%Z
  = [3; 2; 1]%Z.
Proof. reflexivity. Qed.

Example blog_listing : posts_directory_is blog blog_posts.
Proof. split; reflexivity. Qed.

Example blog_summarised : getSortedPostsData blog = Ok blog_summaries.
Proof. vm_compute. reflexivity. Qed.

Example blog_post_fetched : getPostData blog "ssg-ssr" = Ok ssg_ssr_post.
Proof. vm_compute. reflexivity. Qed.

Example blog_with_notes_fails_on_note :
  getPostData blog_with_notes "notes.txt" = Err ENOENT.
Proof. vm_compute. reflexivity. Qed.

Example directory_entry_is_not_read :
  getSortedPostsData (app [("posts", Dir [("drafts", Dir [])])]) = Err EISDIR.
Proof. vm_compute. reflexivity. Qed.

Example missing_directory :
  getAllPostIds (app []) = Err ENOENT.
Proof. vm_compute. reflexivity. Qed.

Example sample_converted : markdown_to_html sample_markdown = sample_html.
Proof. vm_compute. reflexivity. Qed.

(** The specification's own C1 fails where the posts directory holds a
    file that is not markdown: [notes.txt] is listed under the
    identifier [notes.txt], and there is no [notes.txt.md] to fetch. *)
Lemma listed_posts_resolve_refuted : ~ listed_posts_resolve blog_with_notes.
Proof.
  intros Hc.
  destruct (Hc (map static_path ["ssg-ssr.md"; "notes.txt"])
              (static_path "notes.txt") "notes.txt")
    as (r & Hr & _).
  - vm_compute. reflexivity.
  - right. left. reflexivity.
  - vm_compute. reflexivity.
  - vm_compute in Hr. discriminate.
Qed.

Lemma listed_markdown_posts_resolve_witness :
  (exists l o, getAllPostIds blog = Ok l /\ In o l
               /\ params_id o = Some "ssg-ssr")
  /\ (exists r, getPostData blog "ssg-ssr" = Ok r
                /\ r !! "id" = Some (JStr "ssg-ssr")).
Proof.
  eapply (listed_markdown_posts_resolve blog blog_posts "ssg-ssr").
  - split; reflexivity.
  - reflexivity.
  - reflexivity.
  - vm_compute. reflexivity.
  - vm_compute. reflexivity.
Defined.

(** The specification's own C2 fails where a file without a date
    stands among the posts: the post dated 2020-01-01 comes before the
    one dated 2020-01-02. *)
Lemma listing_descends_refuted : ~ listing_descends blog_with_undated.
Proof.
  intros Hc.
  assert (getSortedPostsData blog_with_undated = Ok undated_summaries)
    as Hsum by (vm_compute; reflexivity).
  pose proof (Hc _ Hsum 0 2
                ({[ "id" := JStr "a"; "title" := JStr "First";
                    "date" := JStr "2020-01-01" ]} : object)
                ({[ "id" := JStr "c"; "title" := JStr "Second";
                    "date" := JStr "2020-01-02" ]} : object)
                "2020-01-01" "2020-01-02") as Hle.
  assert (String.leb "2020-01-02" "2020-01-01" = true) as Hbad.
  { apply Hle; [lia | reflexivity | reflexivity | | ];
      vm_compute; reflexivity. }
  vm_compute in Hbad. discriminate.
Qed.

Lemma dated_summaries_sorted_by_date_witness :
  getSortedPostsData blog = Ok blog_summaries
  /\ (exists fileNames all,
         readdirSync (root blog) (postsDirectory blog) = Ok fileNames
         /\ Forall2 (summary_of_file blog) fileNames all
         /\ Permutation blog_summaries all)
  /\ dates_descend blog_summaries.
Proof.
  assert (getSortedPostsData blog = Ok blog_summaries) as Hsum
    by (vm_compute; reflexivity).
  split; [assumption|].
  destruct (dated_summaries_sorted_by_date blog blog_summaries Hsum)
    as (Hfiles & _ & Hdesc & _).
  - repeat (constructor; [eexists; vm_compute; reflexivity|]). constructor.
  - split; assumption.
Defined.

(** The specification's own C3 fails on its own scenario: the elements
    are [{params: {id}}], and none of them is the bare [{id}]. *)
Lemma lists_route_parameters_refuted :
  ~ lists_route_parameters blog ["ssg-ssr"; "pre-rendering"].
Proof.
  intros (l & Hl & Hiff).
  assert (getAllPostIds blog
          = Ok (map static_path ["pre-rendering.md"; "ssg-ssr.md"])) as Hids
    by (vm_compute; reflexivity).
  rewrite Hids in Hl. injection Hl as <-.
  assert (In (route_parameter "ssg-ssr")
             (map static_path ["pre-rendering.md"; "ssg-ssr.md"])) as Hin.
  { apply Hiff. exists "ssg-ssr". split; [now left | reflexivity]. }
  destruct Hin as [Heq | [Heq | []]];
    apply (f_equal (fun o : object => o !! "id")) in Heq;
    vm_compute in Heq; discriminate.
Qed.

Lemma post_ids_wrapped_in_params_witness :
  exists l,
    getAllPostIds blog = Ok l
    /\ forall o : object,
         In o l <->
         o = {[ "params" := JObj {[ "id" := JStr "ssg-ssr" ]} ]}
         \/ o = {[ "params" := JObj {[ "id" := JStr "pre-rendering" ]} ]}.
Proof.
  destruct (post_ids_wrapped_in_params blog blog_posts)
    as (l & Hl & _ & Hset).
  - split; reflexivity.
  - exists l. split; [assumption|]. apply Hset. simpl. apply perm_swap.
Defined.

(** The specification's own C4 fails on a name with another extension:
    the identifier of [notes.txt] is [notes.txt], not [notes]. *)
Lemma strips_extension_refuted : ~ strips_extension "notes.txt".
Proof.
  intros Hc. specialize (Hc "notes" "txt" eq_refl eq_refl).
  vm_compute in Hc. discriminate.
Qed.

Lemma identifier_strips_md_witness :
  replace_md_suffix "ssg-ssr.md" = "ssg-ssr"
  /\ replace_md_suffix "notes.txt" = "notes.txt"
  /\ getAllPostIds blog_with_notes
     = Ok [ {[ "params" := JObj {[ "id" := JStr "ssg-ssr" ]} ]};
            {[ "params" := JObj {[ "id" := JStr "notes.txt" ]} ]} ].
Proof.
  destruct (identifier_strips_md blog_with_notes ["ssg-ssr.md"; "notes.txt"])
    as (Hmd & Hother & Hids & _).
  - reflexivity.
  - split; [exact (Hmd "ssg-ssr")|]. split; [now apply Hother|].
    exact Hids.
Defined.

(** The specification's own C5 fails on an identifier that leaves the
    posts directory: no entry of the directory is named [../README.md],
    and the fetch succeeds on the file beside the directory. *)
Lemma missing_post_not_found_refuted : ~ missing_post_not_found blog_with_readme.
Proof.
  intros Hc.
  pose proof (Hc _ "../README" (conj eq_refl eq_refl) eq_refl) as Hmiss.
  vm_compute in Hmiss. discriminate.
Qed.

Lemma missing_post_is_not_found_witness :
  lookup_entry "does-not-exist.md" blog_posts = None
  /\ getPostData blog "does-not-exist" = Err ENOENT.
Proof.
  split; [reflexivity|].
  apply (missing_post_is_not_found blog blog_posts "does-not-exist");
    [split; reflexivity | reflexivity..].
Defined.

(** The specification's own C6 fails on a post whose front matter
    declares a [contentHtml]: the key is spread into its summary. *)
Lemma body_only_when_fetched_refuted :
  ~ body_only_when_fetched blog_with_overrides.
Proof.
  intros [Hc _].
  assert (getSortedPostsData blog_with_overrides = Ok overrides_summaries)
    as Hsum by (vm_compute; reflexivity).
  pose proof (Hc _ ({[ "id" := JStr "pre-rendering";
                       "title" := JStr "SSG vs SSR";
                       "date" := JStr "2020-01-01";
                       "contentHtml" := JStr "plain" ]} : object) Hsum)
    as Hnone.
  assert (In ({[ "id" := JStr "pre-rendering";
                 "title" := JStr "SSG vs SSR";
                 "date" := JStr "2020-01-01";
                 "contentHtml" := JStr "plain" ]} : object)
             overrides_summaries) as Hin by (right; left; reflexivity).
  specialize (Hnone Hin). vm_compute in Hnone. discriminate.
Qed.

Lemma body_added_only_when_fetched_witness :
  getPostData blog "ssg-ssr" = Ok ssg_ssr_post
  /\ is_Some (ssg_ssr_post !! "contentHtml")
  /\ exists fileNames f contents mr,
       readdirSync (root blog) (postsDirectory blog) = Ok fileNames
       /\ In f fileNames
       /\ readFileSync (root blog) (Path.join (postsDirectory blog) f)
          = Ok contents
       /\ matter contents = Ok mr
       /\ ({[ "id" := JStr "ssg-ssr"; "title" := JStr "Pre-rendering";
              "date" := JStr "2020-01-02" ]} : object)
          = spread {[ "id" := JStr (replace_md_suffix f) ]} (data mr)
       /\ ({[ "id" := JStr "ssg-ssr"; "title" := JStr "Pre-rendering";
              "date" := JStr "2020-01-02" ]} : object) !! "contentHtml"
          = data mr !! "contentHtml".
Proof.
  destruct (body_added_only_when_fetched blog) as [Hsum Hpost].
  split; [vm_compute; reflexivity|]. split.
  - apply (Hpost "ssg-ssr"). vm_compute. reflexivity.
  - apply (Hsum blog_summaries).
    + vm_compute. reflexivity.
    + left. reflexivity.
Defined.

Lemma summaries_cover_directory_witness :
  getSortedPostsData blog = Ok blog_summaries
  /\ length blog_summaries = length (List.filter is_file blog_posts)
  /\ List.filter is_file blog_posts = blog_posts.
Proof.
  split; [vm_compute; reflexivity|].
  apply (summaries_cover_directory blog blog_posts blog_summaries).
  - split; reflexivity.
  - reflexivity.
  - vm_compute. reflexivity.
Defined.

(** The specification's own C8 fails on a post whose front matter
    gray-matter cannot parse: the first call throws, and the second,
    over the unchanged file, returns a record. *)
Lemma repeated_fetch_agrees_refuted :
  ~ repeated_fetch_agrees blog_with_broken "broken".
Proof.
  intros Hc. specialize (Hc ∅).
  assert ((getPostData_call blog_with_broken ∅ "broken").1
          = Err YAMLException) as Hfirst by (vm_compute; reflexivity).
  rewrite Hfirst in Hc.
  destruct (getPostData_call blog_with_broken
              (getPostData_call blog_with_broken ∅ "broken").2 "broken").1
    as [r|e] eqn:Hsecond; [discriminate|].
  vm_compute in Hsecond. discriminate.
Qed.

Lemma repeated_calls_agree_when_they_return_witness :
  (exists l cache1,
      getSortedPostsData_call blog ∅ = (Ok l, cache1)
      /\ getSortedPostsData_call blog cache1 = (Ok l, cache1))
  /\ (exists r cache1,
         getPostData_call blog ∅ "ssg-ssr" = (Ok r, cache1)
         /\ getPostData_call blog cache1 "ssg-ssr" = (Ok r, cache1)).
Proof.
  destruct (repeated_calls_agree_when_they_return blog ∅)
    as (_ & Hsum & Hpost & _).
  split.
  - destruct (getSortedPostsData_call blog ∅) as [[l|e] cache1] eqn:E;
      [|vm_compute in E; discriminate].
    exists l, cache1. split; [reflexivity|]. now apply (Hsum l cache1).
  - destruct (getPostData_call blog ∅ "ssg-ssr") as [[r|e] cache1] eqn:E;
      [|vm_compute in E; discriminate].
    exists r, cache1. split; [reflexivity|]. now apply (Hpost "ssg-ssr" r cache1).
Defined.




(** ** Further properties of the listing *)

Section ListingFacts.

Context `{Deps}.

Lemma map_throwing_first_error {A B : Type} (f : A -> result B)
  (l1 l2 : list A) (x : A) (e : error) :
  (forall y, In y l1 -> exists b, f y = Ok b) -> f x = Err e ->
  map_throwing f (l1 ++ x :: l2)%list = Err e.
Proof.
  intros Hok Hx. induction l1 as [|y l1 IH]; simpl.
  - now rewrite Hx.
  - destruct (Hok y (or_introl eq_refl)) as [b ->]. cbn [bind].
    rewrite IH; [reflexivity|]. intros z Hz. apply Hok. now right.
Qed.

Lemma map_throwing_some_error {A B : Type} (f : A -> result B)
  (l : list A) (x : A) (e : error) :
  In x l -> f x = Err e -> exists e', map_throwing f l = Err e'.
Proof.
  induction l as [|y l IH]; simpl; [tauto|]. intros Hin Hx.
  destruct (f y) as [b|e'] eqn:Ey; cbn [bind]; [|eauto].
  destruct Hin as [-> | Hin]; [congruence|].
  destruct (IH Hin Hx) as [e'' ->]. cbn [bind]. eauto.
Qed.

Lemma post_summary_succeeds (w : world) (f : string) :
  entry_succeeds w f -> exists r, post_summary w f = Ok r.
Proof.
  intros (contents & mr & Hread & Hm). unfold post_summary.
  rewrite Hread. cbn [bind]. rewrite Hm. cbn [bind]. eauto.
Qed.

Lemma post_summary_fails (w : world) (f : string) (e : error) :
  entry_fails w f e -> post_summary w f = Err e.
Proof.
  unfold post_summary. intros [Hread | (contents & Hread & Hm)].
  - now rewrite Hread.
  - rewrite Hread. cbn [bind]. now rewrite Hm.
Qed.

Lemma Forall2_entries (w : world) (entries part : list (string * node))
  (all : list object) :
  posts_directory_is w entries -> well_formed_entries entries = true ->
  (forall entry, In entry part -> In entry entries) ->
  Forall2 (fun f r => post_summary w f = Ok r) (map fst part) all ->
  Forall2 summary_of_entry part all.
Proof.
  intros Hdir Hwf. revert all.
  induction part as [|[f n] part IH]; intros all Hsub Hall;
    inversion Hall as [|? r ? all' Hp Hrest]; subst; constructor.
  - assert (In (f, n) entries) as Hin by (apply Hsub; now left).
    assert (In f (map fst entries)) as Hf.
    { apply in_map_iff. now exists (f, n). }
    destruct (post_summary_ok _ _ _ Hp) as (contents & mr & Hread & Hm & ->).
    rewrite (read_posts_entry _ _ _ Hdir (well_formed_valid _ _ Hwf Hf))
      in Hread.
    pose proof Hwf as Hd. unfold well_formed_entries in Hd.
    apply andb_true_iff in Hd as [_ Hd].
    rewrite (lookup_entry_distinct _ _ _ Hd Hin) in Hread.
    exists contents, mr. simpl. destruct n; [|discriminate].
    injection Hread as ->. auto.
  - apply IH; [|assumption]. intros entry Hentry. apply Hsub. now right.
Qed.

Lemma Forall2_mark_in {A B : Type} (P : A -> B -> Prop) (l : list A)
  (ys : list B) :
  Forall2 P l ys -> Forall2 (fun x y => In x l /\ P x y) l ys.
Proof.
  induction 1 as [|x y l ys Hxy _ IH]; constructor.
  - split; [now left | assumption].
  - eapply Forall2_impl; [exact IH|].
    intros a b [Ha Hab]. split; [now right | assumption].
Qed.

Lemma Forall2_map_eq {A B C : Type} (P : A -> B -> Prop) (g : B -> C)
  (h : A -> C) (l : list A) (ys : list B) :
  (forall x y, P x y -> g y = h x) -> Forall2 P l ys ->
  map g ys = map h l.
Proof.
  intros Hgh. induction 1 as [|x y l ys Hxy _ IH]; simpl; [reflexivity|].
  now rewrite (Hgh x y Hxy), IH.
Qed.

(** X1. Whenever [getSortedPostsData] returns over a well-formed posts
    directory, its result is a rearrangement of the summaries of the
    directory's entries taken one by one: every entry is a regular file
    whose front matter parses, it contributes exactly one record, made
    of its front matter and the identifier of its name, and there is no
    other record. *)
Theorem summaries_rearrange_entries (w : world)
  (entries : list (string * node)) (l : list object) :
  posts_directory_is w entries ->
  well_formed_entries entries = true ->
  getSortedPostsData w = Ok l ->
  exists all, Permutation l all /\ Forall2 summary_of_entry entries all.
Proof.
  intros Hdir Hwf Hg.
  apply getSortedPostsData_ok in Hg as (names & all & Hnames & Hall & ->).
  rewrite (read_posts_listing _ _ Hdir) in Hnames. injection Hnames as <-.
  exists all. split; [apply array_sort_perm|].
  now apply (Forall2_entries w entries entries all).
Qed.

(** X2. [getSortedPostsData] recovers nothing: when the entries before
    [f] in the listing read and parse and [f] does not, the call fails
    with the exception of [f]; and whenever any listed entry cannot be
    read or parsed, the call fails. *)
Theorem listing_fails_with_first_failure (w : world) (names : list string) :
  readdirSync (root w) (postsDirectory w) = Ok names ->
  (forall before f after e,
      names = (before ++ f :: after)%list ->
      (forall g, In g before -> entry_succeeds w g) ->
      entry_fails w f e ->
      getSortedPostsData w = Err e)
  /\ (forall f e,
         In f names -> entry_fails w f e ->
         exists e', getSortedPostsData w = Err e').
Proof.
  intros Hnames. unfold getSortedPostsData. rewrite Hnames. cbn [bind].
  split.
  - intros before f after e -> Hbefore Hf.
    rewrite (map_throwing_first_error (post_summary w) before after f e).
    + reflexivity.
    + intros g Hg. now apply post_summary_succeeds, Hbefore.
    + now apply post_summary_fails.
  - intros f e Hin Hf.
    destruct (map_throwing_some_error (post_summary w) names f e Hin
                (post_summary_fails _ _ _ Hf)) as [e' ->].
    cbn [bind]. eauto.
Qed.

(** X3. Whenever [getSortedPostsData] returns, [getAllPostIds] returns
    too, with as many elements; when no file declares an [id] key in its front
    matter, the [id] fields of the summaries are, up to order, the
    identifiers [getAllPostIds] lists. *)
Theorem summary_ids_are_listed_ids (w : world) (l : list object) :
  getSortedPostsData w = Ok l ->
  exists ids,
    getAllPostIds w = Ok ids
    /\ length ids = length l
    /\ (no_declared_id w ->
        Permutation (map (fun r : object => r !! "id") l)
                    (map (fun o => JStr <$> params_id o) ids)).
Proof.
  intros Hg.
  apply getSortedPostsData_ok in Hg as (names & all & Hnames & Hall & ->).
  exists (map static_path names). split; [|split].
  - unfold getAllPostIds. now rewrite Hnames.
  - rewrite length_map, (Permutation_length (array_sort_perm by_date all)).
    eapply Forall2_length, Hall.
  - intros Hnone.
    rewrite (Permutation_map _ (array_sort_perm by_date all)).
    rewrite map_map.
    assert (map (fun r : object => r !! "id") all
            = map (fun f => Some (JStr (replace_md_suffix f))) names) as ->.
    { eapply Forall2_map_eq; [|exact (Forall2_mark_in _ _ _ Hall)]. cbv beta.
      intros f r [Hf Hp].
      destruct (post_summary_ok _ _ _ Hp) as (contents & mr & Hread & Hm & ->).
      rewrite spread_lookup, (Hnone names f contents mr Hnames Hf Hread Hm).
      apply lookup_singleton_eq. }
    apply Permutation_refl'. apply map_ext. intros f.
    now rewrite params_id_static_path.
Qed.

End ListingFacts.

(** ** Further properties of the paths and of the fetch *)

Section FetchFacts.

Context `{Deps}.

Lemma join_markdown_name (base : path) (id : string) :
  has_char slash id = false ->
  Path.join base (id +:+ ".md") = (base ++ [id +:+ ".md"])%list.
Proof.
  intros Hs. unfold Path.join, split_slash.
  rewrite split_char_whole by (rewrite has_char_app, Hs; reflexivity).
  cbn [fold_left]. unfold push_component.
  rewrite !eqb_length_ne; [reflexivity | | |];
    rewrite append_length; simpl; lia.
Qed.

Lemma postsDirectory_unfold (w : world) :
  postsDirectory w = (cwd w ++ ["posts"])%list.
Proof. unfold postsDirectory. now apply join_valid_name. Qed.

Lemma check_path_snoc (p : path) (name : string) :
  check_path (p ++ [name])%list
  = match check_path p with
    | Err e => Err e
    | Ok _ => if has_null_byte name then Err ERR_INVALID_ARG_VALUE else Ok tt
    end.
Proof.
  unfold check_path. rewrite existsb_app. simpl.
  destruct (existsb has_null_byte p); [reflexivity|]. simpl.
  now destruct (has_null_byte name).
Qed.

Lemma getPostData_inside (w : world) (entries : list (string * node))
  (id : string) :
  posts_directory_is w entries ->
  has_char slash id = false -> has_null_byte id = false ->
  getPostData w id
  = match lookup_entry (id +:+ ".md") entries with
    | Some (File contents) =>
        let* mr := matter contents in Ok (post_record id mr)
    | Some (Dir _) => Err EISDIR
    | None => Err ENOENT
    end.
Proof.
  intros Hdir Hs Hn. unfold getPostData.
  rewrite (read_posts_entry _ _ _ Hdir (valid_name_md _ Hs Hn)).
  destruct (lookup_entry (id +:+ ".md") entries) as [[contents|d]|];
    reflexivity.
Qed.

Lemma removelast_snoc {A : Type} (l : list A) (x : A) :
  removelast (l ++ [x])%list = l.
Proof.
  induction l as [|y l IH]; [reflexivity|].
  simpl. rewrite IH. destruct l; reflexivity.
Qed.

Lemma join_dot_dot (base : path) (dir name : string) :
  has_char slash name = false ->
  Path.join (base ++ [dir])%list ("../" +:+ name +:+ ".md")
  = (base ++ [name +:+ ".md"])%list.
Proof.
  intros Hs.
  change ("../" +:+ name +:+ ".md")
    with (String "." (String "." (String "/" (name +:+ ".md")))).
  unfold Path.join, split_slash. cbn [split_char Ascii.eqb Bool.eqb slash].
  rewrite split_char_whole by (rewrite has_char_app, Hs; reflexivity).
  cbn [fold_left]. unfold push_component at 2.
  cbn [String.eqb Ascii.eqb Bool.eqb]. rewrite removelast_snoc.
  unfold push_component.
  rewrite !eqb_length_ne; [reflexivity | | |];
    rewrite append_length; simpl; lia.
Qed.

(** X4. The record [getPostData] returns for a listed file is the
    summary [getSortedPostsData] gives that file, with the converted
    body added as [contentHtml] where the summary has no such key:
    apart from [contentHtml] the two records agree on every key. *)
Theorem fetched_post_extends_summary (w : world)
  (entries : list (string * node)) (l : list object)
  (id contents : string) :
  posts_directory_is w entries ->
  well_formed_entries entries = true ->
  getSortedPostsData w = Ok l ->
  lookup_entry (id +:+ ".md") entries = Some (File contents) ->
  exists summary post mr,
    In summary l
    /\ getPostData w id = Ok post
    /\ matter contents = Ok mr
    /\ post = spread {[ "contentHtml" := JStr (remark_html (content mr)) ]}
                     summary
    /\ forall k, k <> "contentHtml" -> post !! k = summary !! k.
Proof.
  intros Hdir Hwf Hg Hfile.
  pose proof (lookup_entry_listed _ _ _ Hfile) as Hlisted.
  pose proof (well_formed_valid _ _ Hwf Hlisted) as Hvalid.
  destruct (valid_name_md_inv _ Hvalid) as [Hs Hn].
  destruct (summaries_records _ _ Hg) as (names & Hnames & _ & _ & Hall).
  rewrite (read_posts_listing _ _ Hdir) in Hnames. injection Hnames as <-.
  destruct (Hall _ Hlisted) as (summary & Hin & Hp).
  destruct (post_summary_ok _ _ _ Hp) as (contents' & mr & Hread & Hm & ->).
  rewrite (read_posts_entry _ _ _ Hdir Hvalid), Hfile in Hread.
  injection Hread as <-. rewrite replace_md_suffix_app in Hin.
  exists (spread {[ "id" := JStr id ]} (data mr)), (post_record id mr), mr.
  split; [assumption|]. split; [|split; [assumption|]].
  - rewrite (getPostData_inside _ _ _ Hdir Hs Hn), Hfile, Hm. reflexivity.
  - assert (post_record id mr
            = spread {[ "contentHtml" := JStr (remark_html (content mr)) ]}
                     (spread {[ "id" := JStr id ]} (data mr))) as Heq.
    { unfold post_record, spread.
      rewrite insert_union_singleton_r by now apply lookup_singleton_ne.
      apply (assoc_L (∪)). }
    split; [assumption|]. intros k Hk. rewrite Heq.
    rewrite (spread_lookup {[ "contentHtml" := _ ]}).
    destruct (spread {[ "id" := JStr id ]} (data mr) !! k); [reflexivity|].
    now apply lookup_singleton_ne.
Qed.

(** X5. [getPostData] does not keep to the posts directory: for every
    markdown file [name.md] that lies in the working directory, beside
    the posts directory, the identifier [../name] is fetched from that
    file, whether or not a posts directory exists, and comes back as
    the [id] of the record unless the front matter declares one. *)
Theorem parent_directory_is_fetched (w : world)
  (siblings : list (string * node)) (name contents : string)
  (mr : matterResult) :
  check_path (cwd w) = Ok tt ->
  resolve (root w) (cwd w) = Ok (Dir siblings) ->
  has_char slash name = false ->
  has_null_byte name = false ->
  lookup_entry (name +:+ ".md") siblings = Some (File contents) ->
  matter contents = Ok mr ->
  getPostData w ("../" +:+ name)
  = Ok (spread (<[ "contentHtml" := JStr (remark_html (content mr)) ]>
                  {[ "id" := JStr ("../" +:+ name) ]})
               (data mr)).
Proof.
  intros Hcheck Hcwd Hs Hn Hfile Hm. unfold getPostData.
  rewrite postsDirectory_unfold.
  change (("../" +:+ name) +:+ ".md") with ("../" +:+ name +:+ ".md").
  rewrite (join_dot_dot _ _ _ Hs). unfold readFileSync.
  rewrite check_path_snoc, Hcheck.
  assert (has_null_byte (name +:+ ".md") = false) as ->.
  { unfold has_null_byte in *. now rewrite has_char_app, Hn. }
  cbn [bind]. rewrite resolve_app, Hcwd. cbn [bind resolve].
  rewrite Hfile. cbn [bind]. now rewrite Hm.
Qed.

(** X6. For an identifier without a slash and without a null byte the
    outcome of [getPostData] is decided by the one entry [id.md] of the
    posts directory: a regular file is parsed and converted (and the
    exception of gray-matter is passed on), a directory of that name
    gives EISDIR, no entry gives ENOENT. In particular such a fetch
    succeeds only on a regular file of the posts directory. *)
Theorem fetch_is_decided_by_one_entry (w : world)
  (entries : list (string * node)) (id : string) :
  posts_directory_is w entries ->
  has_char slash id = false ->
  has_null_byte id = false ->
  getPostData w id
  = match lookup_entry (id +:+ ".md") entries with
    | Some (File contents) =>
        match matter contents with
        | Ok mr =>
            Ok (spread (<[ "contentHtml" := JStr (remark_html (content mr)) ]>
                          {[ "id" := JStr id ]})
                       (data mr))
        | Err e => Err e
        end
    | Some (Dir _) => Err EISDIR
    | None => Err ENOENT
    end
  /\ (forall r, getPostData w id = Ok r ->
                exists contents,
                  lookup_entry (id +:+ ".md") entries = Some (File contents)).
Proof.
  intros Hdir Hs Hn. rewrite (getPostData_inside _ _ _ Hdir Hs Hn).
  split.
  - destruct (lookup_entry (id +:+ ".md") entries) as [[contents|d]|];
      reflexivity.
  - destruct (lookup_entry (id +:+ ".md") entries) as [[contents|d]|];
      try discriminate.
    eauto.
Qed.

(** X7. An identifier without a slash that holds a null byte is refused
    with ERR_INVALID_ARG_VALUE before the file system is asked, whatever
    the tree and the working directory. *)
Theorem null_byte_is_refused (w : world) (id : string) :
  has_char slash id = false ->
  has_null_byte id = true ->
  getPostData w id = Err ERR_INVALID_ARG_VALUE.
Proof.
  intros Hs Hn. unfold getPostData, readFileSync.
  rewrite (join_markdown_name _ _ Hs), check_path_snoc.
  assert (has_null_byte (id +:+ ".md") = true) as ->.
  { unfold has_null_byte in *. now rewrite has_char_app, Hn. }
  destruct (check_path (postsDirectory w)) as [u|e] eqn:E;
    [reflexivity|].
  unfold check_path in E. destruct (existsb _ _); [|discriminate].
  now injection E as <-.
Qed.

(** X8. When the working directory has no entry [posts], the three
    queries fail with ENOENT; when [posts] is a regular file, they fail
    with ENOTDIR ([getPostData] for every identifier without a slash and
    without a null byte). *)
Theorem missing_posts_directory (w : world)
  (siblings : list (string * node)) (e : error) :
  check_path (cwd w) = Ok tt ->
  resolve (root w) (cwd w) = Ok (Dir siblings) ->
  match lookup_entry "posts" siblings with
  | None => e = ENOENT
  | Some (File _) => e = ENOTDIR
  | Some (Dir _) => False
  end ->
  getSortedPostsData w = Err e
  /\ getAllPostIds w = Err e
  /\ forall id,
       has_char slash id = false -> has_null_byte id = false ->
       getPostData w id = Err e.
Proof.
  intros Hcheck Hcwd Hposts.
  assert (check_path (postsDirectory w) = Ok tt) as Hcheck'.
  { rewrite postsDirectory_unfold, check_path_snoc, Hcheck. reflexivity. }
  assert (resolve (root w) (postsDirectory w)
          = match lookup_entry "posts" siblings with
            | Some c => Ok c
            | None => Err ENOENT
            end) as Hres.
  { rewrite postsDirectory_unfold, resolve_app, Hcwd. cbn [bind resolve].
    now destruct (lookup_entry "posts" siblings). }
  split; [|split].
  - unfold getSortedPostsData, readdirSync. rewrite Hcheck', Hres.
    destruct (lookup_entry "posts" siblings) as [[c|d]|];
      [now subst e | contradiction | now subst e].
  - unfold getAllPostIds, readdirSync. rewrite Hcheck', Hres.
    destruct (lookup_entry "posts" siblings) as [[c|d]|];
      [now subst e | contradiction | now subst e].
  - intros id Hs Hn. unfold getPostData, readFileSync.
    rewrite (join_markdown_name _ _ Hs), check_path_snoc, Hcheck'.
    assert (has_null_byte (id +:+ ".md") = false) as ->.
    { unfold has_null_byte in *. now rewrite has_char_app, Hn. }
    cbn [bind]. rewrite resolve_app, Hres.
    destruct (lookup_entry "posts" siblings) as [[c|d]|];
      [now subst e | contradiction | now subst e].
Qed.

End FetchFacts.

(** ** Identifiers, listing order and the home page *)

Section OrderFacts.

Context `{Deps}.

Lemma distinct_NoDup (names : list string) :
  distinct names = true -> List.NoDup names.
Proof.
  induction names as [|n names IH]; simpl; intros Hd; constructor.
  - apply andb_true_iff in Hd as [Hfresh _]. apply negb_true_iff in Hfresh.
    intros Hin.
    assert (existsb (String.eqb n) names = true) as Hex.
    { apply existsb_exists. exists n. split; [assumption|].
      apply String.eqb_refl. }
    congruence.
  - apply andb_true_iff in Hd as [_ Hd]. now apply IH.
Qed.

Lemma replace_md_suffix_restore (f : string) :
  ends_with_md f = true -> replace_md_suffix f +:+ ".md" = f.
Proof.
  intros Hf. destruct (ends_with_md_split _ Hf) as [base ->].
  now rewrite replace_md_suffix_app.
Qed.

Lemma NoDup_map_on {A B : Type} (f : A -> B) (l : list A) :
  (forall x y, In x l -> In y l -> f x = f y -> x = y) ->
  List.NoDup l -> List.NoDup (map f l).
Proof.
  intros Hinj Hl. induction Hl as [|x l Hx Hl IH]; simpl; constructor.
  - intros Hin. apply in_map_iff in Hin as (y & Hy & Hin).
    assert (y = x) as -> by (apply Hinj; simpl; auto).
    contradiction.
  - apply IH. intros a b Ha Hb. apply Hinj; now right.
Qed.

Lemma map_on_NoDup {A B : Type} (f : A -> B) (l : list A) (x y : A) :
  List.NoDup (map f l) -> In x l -> In y l -> f x = f y -> x = y.
Proof.
  induction l as [|z l IH]; simpl; [tauto|].
  intros Hnd Hx Hy Hxy. inversion Hnd as [|? ? Hz Hl]; subst.
  destruct Hx as [-> | Hx], Hy as [-> | Hy]; auto.
  - exfalso. apply Hz. rewrite Hxy. now apply in_map.
  - exfalso. apply Hz. rewrite <- Hxy. now apply in_map.
Qed.

(** X9. Over a well-formed posts directory all of whose entries are
    named [*.md], [getAllPostIds] lists no identifier twice. *)
Theorem markdown_identifiers_are_distinct (w : world)
  (entries : list (string * node)) :
  posts_directory_is w entries ->
  well_formed_entries entries = true ->
  forallb ends_with_md (map fst entries) = true ->
  exists ids,
    getAllPostIds w = Ok ids
    /\ List.NoDup (map params_id ids)
    /\ Forall (fun o => is_Some (params_id o)) ids.
Proof.
  intros Hdir Hwf Hmd. exists (map static_path (map fst entries)).
  split; [|split].
  - unfold getAllPostIds. now rewrite (read_posts_listing _ _ Hdir).
  - rewrite map_map. apply NoDup_map_on.
    + intros a b Ha Hb. rewrite !params_id_static_path. intros [= Hab].
      rewrite forallb_forall in Hmd.
      rewrite <- (replace_md_suffix_restore a), <- (replace_md_suffix_restore b)
        by now apply Hmd.
      now rewrite Hab.
    + apply distinct_NoDup. unfold well_formed_entries in Hwf.
      now apply andb_true_iff in Hwf as [_ Hd].
  - apply Forall_forall. intros o Ho. apply list_elem_of_In in Ho.
    apply in_map_iff in Ho as (f & <- & _).
    rewrite params_id_static_path. eauto.
Qed.

Lemma lookup_entry_in (entries : list (string * node)) (name : string)
  (c : node) :
  lookup_entry name entries = Some c -> In (name, c) entries.
Proof.
  induction entries as [|[n d] rest IH]; simpl; [discriminate|].
  destruct (String.eqb n name) eqn:E.
  - apply String.eqb_eq in E. intros [= ->]. left. now subst.
  - intros Hl. right. now apply IH.
Qed.

Lemma lookup_entry_perm (es1 es2 : list (string * node)) (name : string) :
  distinct (map fst es1) = true -> distinct (map fst es2) = true ->
  Permutation es1 es2 ->
  lookup_entry name es1 = lookup_entry name es2.
Proof.
  intros Hd1 Hd2 Hperm.
  destruct (lookup_entry name es1) as [c|] eqn:E1.
  - symmetry. apply lookup_entry_distinct; [assumption|].
    apply (Permutation_in _ Hperm). now apply lookup_entry_in.
  - destruct (lookup_entry name es2) as [c|] eqn:E2; [|reflexivity].
    apply lookup_entry_in in E2.
    apply (Permutation_in _ (Permutation_sym Hperm)) in E2.
    rewrite (lookup_entry_distinct _ _ _ Hd1 E2) in E1. discriminate.
Qed.

Lemma map_throwing_perm {A B : Type} (f : A -> result B) (l1 l2 : list A) :
  Permutation l1 l2 ->
  forall ys1, map_throwing f l1 = Ok ys1 ->
              exists ys2, map_throwing f l2 = Ok ys2 /\ Permutation ys1 ys2.
Proof.
  induction 1 as [|x l l' _ IH|x y l|l l' l'' _ IH1 _ IH2]; intros ys1 Hm.
  - exists ys1. auto.
  - simpl in Hm |- *. destruct (f x) as [b|e]; [|discriminate].
    cbn [bind] in Hm |- *.
    destruct (map_throwing f l) as [ys|e]; [|discriminate].
    injection Hm as <-. destruct (IH ys eq_refl) as (ys2 & -> & Hp).
    cbn [bind]. exists (b :: ys2). auto.
  - simpl in Hm |- *. destruct (f y) as [b|e]; [|discriminate].
    cbn [bind] in Hm |- *. destruct (f x) as [a|e]; [|discriminate].
    cbn [bind] in Hm |- *.
    destruct (map_throwing f l) as [ys|e]; [|discriminate].
    injection Hm as <-. cbn [bind]. exists (a :: b :: ys).
    split; [reflexivity | apply perm_swap].
  - destruct (IH1 ys1 Hm) as (ys2 & Hm2 & Hp12).
    destruct (IH2 ys2 Hm2) as (ys3 & Hm3 & Hp23).
    exists ys3. split; [assumption|]. now transitivity ys2.
Qed.

Lemma dated_no_later_trans : Relations_1.Transitive dated_no_later.
Proof.
  intros x y z. unfold dated_no_later.
  destruct (date_of x) as [dx|], (date_of y) as [dy|], (date_of z) as [dz|];
    try tauto.
  apply leb_trans.
Qed.

Lemma sorted_pass_dated (l : list object) :
  Sorted (sort_respects by_date) l -> all_dated l ->
  StronglySorted dated_no_later l.
Proof.
  intros Hs Hall. apply Sorted_StronglySorted; [exact dated_no_later_trans|].
  induction Hs as [|x l Hl IH Hhd]; constructor.
  - apply IH. now inversion Hall.
  - destruct Hhd as [|y l' Hxy]; constructor.
    inversion Hall as [|? ? [dx Hx] Hrest]; subst.
    inversion Hrest as [|? ? [dy Hy] _]; subst.
    unfold dated_no_later. rewrite Hx, Hy.
    exact (by_date_order y x dy dx Hxy Hy Hx).
Qed.

Lemma dated_no_later_antisym (x y : object) :
  dated_no_later x y -> dated_no_later y x -> date_of x = date_of y.
Proof.
  unfold dated_no_later.
  destruct (date_of x) as [dx|], (date_of y) as [dy|]; try tauto.
  intros Hxy Hyx. f_equal. now apply String.leb_antisym.
Qed.

(** Two arrangements of the same records that are both in the order of
    the dates are one arrangement, when no date occurs twice. *)
Lemma sorted_arrangement_unique (a b : list object) :
  StronglySorted dated_no_later a -> StronglySorted dated_no_later b ->
  Permutation a b -> List.NoDup (map date_of a) -> a = b.
Proof.
  intros Ha. revert b. induction Ha as [|x a Ha IH Hx]; intros b Hb Hperm Hnd.
  - apply Permutation_nil in Hperm. now subst.
  - destruct Hb as [|y b Hb Hy].
    + apply Permutation_sym, Permutation_nil in Hperm. discriminate.
    + assert (x = y) as ->.
      { assert (In x (y :: b)) as Hxin
            by (apply (Permutation_in _ Hperm); now left).
        assert (In y (x :: a)) as Hyin
            by (apply (Permutation_in _ (Permutation_sym Hperm)); now left).
        destruct Hxin as [-> | Hxin]; [reflexivity|].
        destruct Hyin as [-> | Hyin]; [reflexivity|].
        rewrite Forall_forall in Hx, Hy.
        apply (map_on_NoDup date_of (x :: a)); simpl; auto.
        apply dated_no_later_antisym.
        - apply Hx. now apply list_elem_of_In.
        - apply Hy. now apply list_elem_of_In. }
      f_equal. apply IH; [assumption | | now inversion Hnd].
      now apply Permutation_cons_inv in Hperm.
Qed.

Lemma array_sort_by_date_unique (all1 all2 : list object) :
  Permutation all1 all2 ->
  all_dated (array_sort by_date all1) ->
  List.NoDup (map date_of (array_sort by_date all1)) ->
  array_sort by_date all1 = array_sort by_date all2.
Proof.
  intros Hperm Hdated Hnd.
  pose proof (array_sort_perm by_date all1) as Hp1.
  pose proof (array_sort_perm by_date all2) as Hp2.
  unfold array_sort in *.
  set (r1 := fold_left _ all1 []) in *. set (r2 := fold_left _ all2 []) in *.
  assert (Permutation r1 r2) as Hr.
  { rewrite (Permutation_rev r1), Hp1, Hperm, <- Hp2. symmetry.
    apply Permutation_rev. }
  assert (all_dated r1) as Hd1.
  { unfold all_dated in *.
    eapply Permutation_Forall; [|exact Hdated].
    symmetry. apply Permutation_rev. }
  assert (all_dated r2) as Hd2.
  { unfold all_dated in *. eapply Permutation_Forall; [exact Hr | exact Hd1]. }
  f_equal. apply sorted_arrangement_unique.
  - apply sorted_pass_dated; [|assumption].
    apply insertion_pass_sorted; [exact by_date_asym | constructor].
  - apply sorted_pass_dated; [|assumption].
    apply insertion_pass_sorted; [exact by_date_asym | constructor].
  - assumption.
  - eapply Permutation_NoDup; [|exact Hnd].
    apply Permutation_map. symmetry. apply Permutation_rev.
Qed.

(** X10. The order in which the directory reports its entries does not
    show in the result of [getSortedPostsData], as long as every record
    is dated and no two records have the same date: over a directory
    with the same entries in another order the call returns the very
    same list. *)
Theorem listing_order_is_immaterial (w1 w2 : world)
  (es1 es2 : list (string * node)) (l : list object) :
  posts_directory_is w1 es1 -> posts_directory_is w2 es2 ->
  well_formed_entries es1 = true -> well_formed_entries es2 = true ->
  Permutation es1 es2 ->
  getSortedPostsData w1 = Ok l ->
  all_dated l -> List.NoDup (map date_of l) ->
  getSortedPostsData w2 = Ok l.
Proof.
  intros Hd1 Hd2 Hwf1 Hwf2 Hperm Hg Hdated Hnd.
  unfold getSortedPostsData in Hg.
  rewrite (read_posts_listing _ _ Hd1) in Hg. cbn [bind] in Hg.
  apply bind_ok in Hg as (all1 & Hall1 & Hg). injection Hg as <-.
  assert (map_throwing (post_summary w2) (map fst es1) = Ok all1) as Hall2.
  { rewrite <- Hall1. apply map_throwing_ext. intros f Hf.
    unfold post_summary.
    pose proof (well_formed_valid _ _ Hwf1 Hf) as Hv.
    rewrite (read_posts_entry _ _ _ Hd1 Hv), (read_posts_entry _ _ _ Hd2 Hv).
    rewrite (lookup_entry_perm es1 es2 f); [reflexivity | | | assumption].
    - unfold well_formed_entries in Hwf1.
      now apply andb_true_iff in Hwf1 as [_ ?].
    - unfold well_formed_entries in Hwf2.
      now apply andb_true_iff in Hwf2 as [_ ?]. }
  destruct (map_throwing_perm (post_summary w2) (map fst es1) (map fst es2)
              (Permutation_map fst Hperm) all1 Hall2)
    as (all2 & Hm2 & Hp).
  unfold getSortedPostsData.
  rewrite (read_posts_listing _ _ Hd2). cbn [bind]. rewrite Hm2. cbn [bind].
  f_equal. symmetry. now apply array_sort_by_date_unique.
Qed.

End OrderFacts.

Section PageFacts.

Context `{Deps}.

Lemma split_char_free (sep : ascii) (s : string) :
  forallb (fun seg => negb (has_char sep seg)) (split_char sep s) = true.
Proof.
  induction s as [|c s IH]; [reflexivity|]. simpl.
  destruct (Ascii.eqb c sep) eqn:E; [exact IH|].
  destruct (split_char sep s) as [|seg segs]; simpl in *.
  - now rewrite E.
  - now rewrite E.
Qed.

Lemma removelast_forallb {A : Type} (f : A -> bool) (l : list A) :
  forallb f l = true -> forallb f (removelast l) = true.
Proof.
  induction l as [|x l IH]; [reflexivity|]. simpl. intros Hl.
  apply andb_true_iff in Hl as [Hx Hl].
  destruct l as [|y l]; [reflexivity|].
  change (forallb f (x :: removelast (y :: l)) = true).
  simpl forallb at 1. rewrite Hx. now apply IH.
Qed.

Lemma push_component_normal (p : path) (seg : string) :
  forallb normal_component p = true -> has_char slash seg = false ->
  forallb normal_component (push_component p seg) = true.
Proof.
  intros Hp Hs. unfold push_component.
  destruct (String.eqb seg "") eqn:E0; [assumption|].
  destruct (String.eqb seg ".") eqn:E1; [assumption|].
  destruct (String.eqb seg "..") eqn:E2; [now apply removelast_forallb|].
  rewrite forallb_app, Hp. simpl. unfold normal_component.
  now rewrite E0, E1, E2, Hs.
Qed.

(** [path.join] keeps a path normalized. *)
Lemma join_normalized (base : path) (rel : string) :
  forallb normal_component base = true ->
  forallb normal_component (Path.join base rel) = true.
Proof.
  unfold Path.join, split_slash. intros Hbase.
  pose proof (split_char_free slash rel) as Hfree.
  revert base Hbase.
  induction (split_char slash rel) as [|seg segs IH]; intros base Hbase;
    [assumption|].
  simpl in Hfree. apply andb_true_iff in Hfree as [Hseg Hsegs].
  apply negb_true_iff in Hseg. cbn [fold_left].
  apply IH; [assumption|]. now apply push_component_normal.
Qed.

(** X11. Every path the module hands to the file system is normalized:
    with a normalized working directory, the posts directory, the path
    of every listed file name and the path [getPostData] builds from
    any identifier, slashes and dots included, have no empty, [.] or
    [..] component and no slash inside a component. *)
Theorem module_paths_are_normalized (w : world) :
  forallb normal_component (cwd w) = true ->
  forallb normal_component (postsDirectory w) = true
  /\ (forall fileName,
         forallb normal_component (Path.join (postsDirectory w) fileName)
         = true)
  /\ (forall id,
         forallb normal_component
           (Path.join (postsDirectory w) (id +:+ ".md")) = true).
Proof.
  intros Hcwd.
  assert (forallb normal_component (postsDirectory w) = true) as Hposts
    by now apply join_normalized.
  split; [assumption|]. split; intros; now apply join_normalized.
Qed.

(** X12. The home page links only to listed posts: whenever
    [getStaticProps] resolves and no file declares an [id] key in its
    front matter, [Home] renders one item per element of
    [getAllPostIds], and the [key] of every item is a listed identifier
    [id], its link going to [/posts/id]. *)
Theorem home_links_are_listed (w : world) (sp : StaticProps) :
  getStaticProps w = Ok sp ->
  no_declared_id w ->
  exists ids,
    getAllPostIds w = Ok ids
    /\ length (Home_list (props sp)) = length ids
    /\ forall item,
         In item (Home_list (props sp)) ->
         exists o id,
           In o ids /\ params_id o = Some id
           /\ key item = Some (JStr id)
           /\ as_path item = "/posts/" +:+ id.
Proof.
  intros Hsp Hnone. unfold getStaticProps in Hsp.
  apply bind_ok in Hsp as (l & Hg & Hsp). injection Hsp as <-.
  destruct (summaries_records _ _ Hg) as (names & Hnames & Hlen & Hrec & _).
  exists (map static_path names). split; [|split].
  - unfold getAllPostIds. now rewrite Hnames.
  - unfold Home_list. simpl. now rewrite !length_map.
  - intros item Hitem. unfold Home_list in Hitem. simpl in Hitem.
    apply in_map_iff in Hitem as (r & <- & Hr).
    destruct (Hrec r Hr) as (f & Hf & Hp).
    destruct (post_summary_ok _ _ _ Hp) as (contents & mr & Hread & Hm & ->).
    exists (static_path f), (replace_md_suffix f).
    split; [now apply in_map|]. split; [apply params_id_static_path|].
    assert (spread {[ "id" := JStr (replace_md_suffix f) ]} (data mr) !! "id"
            = Some (JStr (replace_md_suffix f))) as Hid.
    { rewrite spread_lookup, (Hnone names f contents mr Hnames Hf Hread Hm).
      apply lookup_singleton_eq. }
    unfold post_item. cbn [key as_path]. now rewrite Hid.
Qed.

Lemma map_throwing_total {A B : Type} (f : A -> result B) (l : list A) :
  (forall x, In x l -> exists y, f x = Ok y) ->
  exists ys, map_throwing f l = Ok ys.
Proof.
  induction l as [|x l IH]; simpl; intros Hf; [eauto|].
  destruct (Hf x (or_introl eq_refl)) as [y ->]. cbn [bind].
  destruct IH as [ys ->]; [intros; apply Hf; now right|].
  cbn [bind]. eauto.
Qed.


End PageFacts.

Section MoreFacts.

Context `{Deps}.

Lemma map_lookup_inv {A B : Type} (f : A -> B) (l : list A) (i : nat)
  (y : B) :
  map f l !! i = Some y -> exists x, l !! i = Some x /\ y = f x.
Proof.
  revert i. induction l as [|x l IH]; intros [|i]; simpl; try discriminate.
  - intros [= <-]. eauto.
  - apply IH.
Qed.

(** X14. An entry of the posts directory whose name does not end in
    [.md] is listed by [getAllPostIds] under its whole name, and the
    fetch of that identifier looks for the name with [.md] added: with
    no such entry in the directory, [getPostData] answers the listed
    identifier with ENOENT. *)
Theorem other_files_are_listed_not_fetched (w : world)
  (entries : list (string * node)) (f : string) :
  posts_directory_is w entries ->
  well_formed_entries entries = true ->
  In f (map fst entries) ->
  ends_with_md f = false ->
  lookup_entry (f +:+ ".md") entries = None ->
  (exists ids o,
      getAllPostIds w = Ok ids /\ In o ids /\ params_id o = Some f)
  /\ getPostData w f = Err ENOENT.
Proof.
  intros Hdir Hwf Hf Hmd Hnone.
  destruct (valid_name_parts _ (well_formed_valid _ _ Hwf Hf))
    as (_ & _ & _ & Hs & Hn).
  split.
  - exists (map static_path (map fst entries)), (static_path f).
    split; [|split].
    + unfold getAllPostIds. now rewrite (read_posts_listing _ _ Hdir).
    + now apply in_map.
    + now rewrite params_id_static_path, replace_md_suffix_keeps.
  - unfold getPostData.
    rewrite (read_posts_entry _ _ _ Hdir (valid_name_md _ Hs Hn)).
    now rewrite Hnone.
Qed.

Lemma post_item_of_summary (w : world) (f : string) (r : object) :
  post_summary w f = Ok r -> item_of_file w f (post_item r).
Proof.
  intros Hp.
  destruct (post_summary_ok _ _ _ Hp) as (contents & mr & Hread & Hm & ->).
  exists contents, mr. split; [assumption|]. split; [assumption|].
  split; [reflexivity|]. cbn [post_item anchor_text dateString].
  rewrite !spread_lookup. split.
  - destruct (data mr !! "title"); [reflexivity|].
    now apply lookup_singleton_ne.
  - destruct (data mr !! "date"); [reflexivity|].
    now apply lookup_singleton_ne.
Qed.



End MoreFacts.

(** ** The further properties on the sample trees *)

Lemma blog_declares_no_id : no_declared_id blog.
Proof.
  intros names f contents mr Hnames Hf Hread Hm.
  vm_compute in Hnames. injection Hnames as <-.
  destruct Hf as [<- | [<- | []]];
    vm_compute in Hread; injection Hread as <-;
    vm_compute in Hm; injection Hm as <-; reflexivity.
Qed.

Lemma summaries_rearrange_entries_witness :
  exists all,
    Permutation blog_summaries all
    /\ Forall2 summary_of_entry blog_posts all.
Proof.
  apply (summaries_rearrange_entries blog blog_posts blog_summaries).
  - split; reflexivity.
  - reflexivity.
  - vm_compute. reflexivity.
Defined.

Lemma listing_fails_with_first_failure_witness :
  getSortedPostsData blog_with_drafts = Err EISDIR.
Proof.
  destruct (listing_fails_with_first_failure blog_with_drafts
              ["ssg-ssr.md"; "drafts"; "pre-rendering.md"])
    as [Hfirst _].
  - reflexivity.
  - apply (Hfirst ["ssg-ssr.md"] "drafts" ["pre-rendering.md"] EISDIR).
    + reflexivity.
    + intros g [<- | []]. eexists. eexists.
      split; vm_compute; reflexivity.
    + left. reflexivity.
Defined.

Lemma summary_ids_are_listed_ids_witness :
  exists ids,
    getAllPostIds blog = Ok ids
    /\ length ids = length blog_summaries
    /\ Permutation (map (fun r : object => r !! "id") blog_summaries)
                   (map (fun o => JStr <$> params_id o) ids).
Proof.
  destruct (summary_ids_are_listed_ids blog blog_summaries)
    as (ids & Hids & Hlen & Hperm).
  - vm_compute. reflexivity.
  - exists ids. split; [assumption|]. split; [assumption|].
    apply Hperm. exact blog_declares_no_id.
Defined.

Lemma fetched_post_extends_summary_witness :
  exists summary post mr,
    In summary blog_summaries
    /\ getPostData blog "ssg-ssr" = Ok post
    /\ post = spread {[ "contentHtml" := JStr (remark_html (content mr)) ]}
                     summary.
Proof.
  edestruct (fetched_post_extends_summary blog blog_posts blog_summaries
               "ssg-ssr")
    as (summary & post & mr & Hin & Hpost & _ & Heq & _).
  - split; reflexivity.
  - reflexivity.
  - vm_compute. reflexivity.
  - reflexivity.
  - exists summary, post, mr. auto.
Defined.

Lemma parent_directory_is_fetched_witness :
  exists r,
    getPostData blog_with_readme "../README" = Ok r
    /\ r !! "id" = Some (JStr "../README").
Proof.
  eexists. split.
  - eapply (parent_directory_is_fetched blog_with_readme _ "README").
    + reflexivity.
    + reflexivity.
    + reflexivity.
    + reflexivity.
    + reflexivity.
    + vm_compute. reflexivity.
  - vm_compute. reflexivity.
Defined.

Lemma fetch_is_decided_by_one_entry_witness :
  getPostData blog_with_archive "archive" = Err EISDIR
  /\ getPostData blog "ssg-ssr" = Ok ssg_ssr_post.
Proof.
  split.
  - destruct (fetch_is_decided_by_one_entry blog_with_archive
                [("ssg-ssr.md",
                  post_file "Pre-rendering" "2020-01-02" sample_body);
                 ("archive.md", Dir [])]
                "archive") as [Heq _].
    + split; reflexivity.
    + reflexivity.
    + reflexivity.
    + rewrite Heq. reflexivity.
  - destruct (fetch_is_decided_by_one_entry blog blog_posts "ssg-ssr")
      as [Heq _].
    + split; reflexivity.
    + reflexivity.
    + reflexivity.
    + rewrite Heq. vm_compute. reflexivity.
Defined.

Lemma null_byte_is_refused_witness :
  getPostData blog ("ssg" +:+ null_byte) = Err ERR_INVALID_ARG_VALUE.
Proof.
  apply (null_byte_is_refused blog ("ssg" +:+ null_byte)); reflexivity.
Defined.

Lemma missing_posts_directory_witness :
  getSortedPostsData (app []) = Err ENOENT
  /\ getAllPostIds (app []) = Err ENOENT
  /\ getPostData (app []) "ssg-ssr" = Err ENOENT.
Proof.
  destruct (missing_posts_directory (app []) [] ENOENT)
    as (Hsum & Hids & Hpost).
  - reflexivity.
  - reflexivity.
  - reflexivity.
  - split; [assumption|]. split; [assumption|]. apply Hpost; reflexivity.
Defined.

Lemma markdown_identifiers_are_distinct_witness :
  exists ids,
    getAllPostIds blog = Ok ids
    /\ List.NoDup (map params_id ids)
    /\ Forall (fun o => is_Some (params_id o)) ids.
Proof.
  apply (markdown_identifiers_are_distinct blog blog_posts).
  - split; reflexivity.
  - reflexivity.
  - reflexivity.
Defined.

Lemma listing_order_is_immaterial_witness :
  getSortedPostsData blog_reordered = Ok blog_summaries.
Proof.
  apply (listing_order_is_immaterial blog blog_reordered
           blog_posts (rev blog_posts) blog_summaries).
  - split; reflexivity.
  - split; reflexivity.
  - reflexivity.
  - reflexivity.
  - apply Permutation_rev.
  - vm_compute. reflexivity.
  - repeat (constructor; [eexists; vm_compute; reflexivity|]). constructor.
  - simpl map. constructor.
    + intros [Heq | []]. vm_compute in Heq. discriminate.
    + constructor; [intros [] | constructor].
Defined.

Lemma module_paths_are_normalized_witness :
  forallb normal_component
    (Path.join (postsDirectory blog) ("../x/./y" +:+ ".md")) = true.
Proof.
  destruct (module_paths_are_normalized blog) as (_ & _ & Hid).
  - reflexivity.
  - apply (Hid "../x/./y").
Defined.

Lemma home_links_are_listed_witness :
  exists ids,
    getAllPostIds blog = Ok ids
    /\ length (Home_list {| allPostsData := blog_summaries |}) = length ids
    /\ forall item,
         In item (Home_list {| allPostsData := blog_summaries |}) ->
         exists o id,
           In o ids /\ params_id o = Some id
           /\ key item = Some (JStr id)
           /\ as_path item = "/posts/" +:+ id.
Proof.
  apply (home_links_are_listed blog
           {| props := {| allPostsData := blog_summaries |} |}).
  - vm_compute. reflexivity.
  - exact blog_declares_no_id.
Defined.


Lemma other_files_are_listed_not_fetched_witness :
  (exists ids o,
      getAllPostIds blog_with_notes = Ok ids /\ In o ids
      /\ params_id o = Some "notes.txt")
  /\ getPostData blog_with_notes "notes.txt" = Err ENOENT.
Proof.
  eapply (other_files_are_listed_not_fetched blog_with_notes _ "notes.txt").
  - split; reflexivity.
  - reflexivity.
  - right. left. reflexivity.
  - reflexivity.
  - reflexivity.
Defined.


